(** * ESP32-CAM timelapse: adaptive capture control loop

    A shallow embedding of [src/esp32cam_timelapse.py] (class
    [ESP32CamTimelapse]) and the properties of its control loop.

    Conventions of the embedding.
    - Python [int] is [Z]; Python [float] (brightness, wall-clock seconds)
      is an exact rational [Q]: rounding of IEEE arithmetic is not modelled.
    - The controller object ([self]) and the outside world (clock, request
      counters) are one explicit [State]; every method is a function of the
      state returning a result, the new state and the effects it performed
      (HTTP requests, sleeps, file writes, log calls), in order.
    - The camera, the network and the operator are an [Env]: scripted
      replies to the k-th request of each kind and the sleeps during which
      Ctrl-C arrives. Ctrl-C is delivered while the program sleeps, which
      is where it spends its time; a request in flight runs to its reply.
      Theorems quantify over every [Env].
    - Of [src/assemble_timelapse.py] the file embeds what decides which
      frames go into the video: the pattern of [find_images], its sort, and
      the check for gaps of [main]. File names are ASCII strings, so [\d]
      is one of the ten digits; [$] matches at the end of the name or
      before a final newline, as [re] has it. The names come from the glob,
      in whatever order it yields them; the metadata beside an image is
      whatever the loading block makes of it. *)

From Stdlib Require Import ZArith QArith Qabs Qround Lqa Lia List Sorted Permutation String Ascii Bool.
Import ListNotations.

Local Open Scope Z_scope.

(** ** Python builtins used by the controller *)

Module Py.

(** [max(a, b)] and [min(a, b)] on integers: Python returns the first
    argument unless the second is strictly larger (smaller). *)
Definition max (a b : Z) : Z := if a <? b then b else a.
Definition min (a b : Z) : Z := if b <? a then b else a.

(** The same on floats. *)
Definition qmax (a b : Q) : Q := if Qle_bool b a then a else b.

(** [int(x)] on a float: truncation toward zero. *)
Definition int (x : Q) : Z := Z.quot (Qnum x) (Z.pos (Qden x)).

(** [sum(xs)]: left-to-right, starting from 0. *)
Definition sum (xs : list Q) : Q := fold_left Qplus xs 0%Q.

(** [range(n)] as the list of its values; empty when [n <= 0]. *)
Definition range (n : Z) : list Z := map Z.of_nat (seq 0 (Z.to_nat n)).

(** One decimal digit as a character. *)
Definition digit_char (d : Z) : ascii := ascii_of_nat (48 + Z.to_nat d).

(** Decimal digits of a non-negative integer, most significant first,
    pushed in front of [acc]. [fuel] bounds the number of digits. *)
Fixpoint dec_aux (fuel : nat) (n : Z) (acc : string) : string :=
  match fuel with
  | O => acc
  | S f =>
      let acc' := String (digit_char (n mod 10)) acc in
      if n <? 10 then acc' else dec_aux f (n / 10) acc'
  end.

(** [str(n)] for [n >= 0]. A number has no more decimal digits than
    binary ones, so the fuel is enough ([dec_value] below). *)
Definition dec (n : Z) : string :=
  dec_aux (S (Z.to_nat (Z.log2 n))) n EmptyString.

(** [s.rjust(w, '0')]. *)
Definition zfill (w : nat) (s : string) : string :=
  string_of_list_ascii (repeat "0"%char (w - String.length s)) ++ s.

(** [format(n, "05d")]: sign first, then the digits padded with zeros to
    a total width of at least 5. *)
Definition fmt05d (n : Z) : string :=
  if n <? 0 then String "-"%char (zfill 4 (dec (- n))) else zfill 5 (dec n).

(** [str(n)]. *)
Definition str (n : Z) : string :=
  if n <? 0 then String "-"%char (dec (- n)) else dec n.

End Py.

(** ** Command-line arguments ([argparse] namespace) *)

Record Args := {
  host : string;
  port : Z;
  frames : Z;
  start_frame : Z;
  interval : Z;
  output : string;
  basename : string;
  save_metadata : bool;
  resolution : string;
  quality : Z;
  arg_brightness : Z;      (* --brightness *)
  contrast : Z;
  saturation : Z;
  sharpness : Z;
  denoise : Z;
  special_effect : Z;
  ae_level : Z;
  gainceiling : Z;
  aec : bool;
  aec_value : Z;
  aec2 : bool;
  agc : bool;
  agc_gain : Z;
  awb : bool;
  dcw : bool;
  awb_gain : bool;
  wb_mode : Z;
  gma : bool;
  lenc : bool;
  bpc : bool;
  wpc : bool;
  hmirror : bool;
  vflip : bool;
  colorbar : bool;
  led_initial : Z;
  led_always_on : bool;
  target_brightness : Z;
  brightness_tolerance : Z;
  consistency_tolerance : Z;
  max_retries : Z
}.

(** [RESOLUTIONS]: name -> framesize value. *)
Definition RESOLUTIONS : list (string * Z) :=
  [ ("96x96", 0); ("QQVGA", 1); ("128x128", 2); ("QCIF", 3); ("HQVGA", 4);
    ("240x240", 5); ("QVGA", 6); ("320x320", 7); ("CIF", 8); ("HVGA", 9);
    ("VGA", 10); ("SVGA", 11); ("XGA", 12); ("HD", 13); ("SXGA", 14);
    ("UXGA", 15); ("FHD", 16); ("PHD", 17); ("P3MP", 18); ("QXGA", 19) ]%string.

(** [d.get(key, default)] on a dict written as an association list. *)
Fixpoint dict_get (d : list (string * Z)) (key : string) (default : Z) : Z :=
  match d with
  | [] => default
  | (k, v) :: d' => if String.eqb k key then v else dict_get d' key default
  end.

(** ** Brightness history and the feedback controller (pure part) *)

(** [get_running_average]: [None] on an empty history, else sum / len. *)
Definition get_running_average (brightness_history : list Q) : option Q :=
  match brightness_history with
  | [] => None
  | _ => Some (Py.sum brightness_history
               / inject_Z (Z.of_nat (List.length brightness_history)))%Q
  end.

(** [update_brightness_history]: append, then drop the oldest sample when
    more than 10 are held. *)
Definition update_brightness_history (brightness_history : list Q) (b : Q)
  : list Q :=
  let h := brightness_history ++ [b] in
  if (10 <? List.length h)%nat then tl h else h.

(** [is_consistent]: anything goes on an empty history; otherwise the
    sample must lie within [consistency_tolerance] of the average. *)
Definition is_consistent (args : Args) (brightness_history : list Q) (b : Q)
  : bool :=
  match get_running_average brightness_history with
  | None => true
  | Some avg => Qle_bool (Qabs (b - avg)) (inject_Z (consistency_tolerance args))
  end.

(** [calculate_led_adjustment]. *)
Definition calculate_led_adjustment (args : Args) (b : Q) : Z :=
  let deviation := (inject_Z (target_brightness args) - b)%Q in
  if Qle_bool (Qabs deviation) (inject_Z (brightness_tolerance args)) then 0
  else
    let adjustment := Py.int (deviation / 8) in
    Py.max (-20) (Py.min 20 adjustment).

(** The LED level stored for the next frame (the block "Adjust LED for next
    frame" of [run]): the level is rewritten only when the adjustment is
    not zero. *)
Definition adjusted_led (args : Args) (current_led : Z) (b : Q) : Z :=
  let adjustment := calculate_led_adjustment args b in
  if negb (adjustment =? 0)
  then Py.max 0 (Py.min 255 (current_led + adjustment))
  else current_led.

(** [generate_filename] and the name of the metadata record. *)
Definition generate_filename (args : Args) (frame_number : Z) : string :=
  (basename args ++ "_" ++ Py.fmt05d frame_number ++ ".jpg")%string.

Definition metadata_filename (args : Args) (frame_number : Z) : string :=
  (basename args ++ "_" ++ Py.fmt05d frame_number ++ ".json")%string.

(** [Path(output) / name]. *)
Definition path_join (dir name : string) : string :=
  (dir ++ "/" ++ name)%string.

(** ** Images and the brightness evaluator *)

(** A decoded image, as far as the controller looks at it: the pixel values
    (0..255) of its luminance channel, [np.array(image.convert('L'))]. *)
Record Image := { gray : list Z }.

(** [calculate_brightness]: the mean of the luminance pixels. *)
Definition calculate_brightness (image : Image) : Q :=
  (inject_Z (fold_left Z.add (gray image) 0%Z)
   / inject_Z (Z.of_nat (List.length (gray image))))%Q.

(** ** The outside world *)

(** What a GET returns to the caller: a status code, or a
    [requests.RequestException] with its text. *)
Inductive HttpReply :=
| Status (code : Z)
| RequestException (text : string).

(** The body of a reply to GET /capture, as [Image.open] sees it: an image,
    or bytes it rejects with an exception. *)
Inductive Payload :=
| Decodes (image : Image)
| Undecodable (text : string).

(** The reply to GET /capture. *)
Inductive CaptureReply :=
| CaptureStatus (code : Z) (content : Payload)
| CaptureException (text : string).

(** The device, the network and the operator. Requests of each kind and
    sleeps are numbered from 0 in the order the program performs them. *)
Record Env := {
  status_reply : HttpReply;               (* GET /status *)
  status_latency : Q;
  control_reply : nat -> HttpReply;       (* k-th GET /control *)
  control_latency : nat -> Q;
  capture_reply : nat -> CaptureReply;    (* k-th GET /capture *)
  capture_latency : nat -> Q;
  interrupted : nat -> bool               (* Ctrl-C arrives in the k-th sleep *)
}.

Inductive Level := LvlDebug | LvlInfo | LvlWarning | LvlError.

(** One constructor per logging call of the class, carrying the values its
    f-string interpolates. *)
Inductive LogMsg :=
| MsgSet (var : string) (val : Z)                 (* "Set {var}={val}" *)
| MsgSetFailed (var : string) (code : Z)          (* "Failed to set {var}: HTTP {code}" *)
| MsgSetError (var : string) (text : string)      (* "Error setting {var}: {e}" *)
| MsgConfiguring                                  (* "Configuring camera parameters..." *)
| MsgConfigured                                   (* "Camera configuration complete" *)
| MsgAttemptFailed (attempt : Z) (error : string) (* "Capture attempt {attempt+1} failed: {error}" *)
| MsgInconsistent (b : Q) (avg : option Q)        (* "Inconsistent brightness {b:.1f} vs avg {avg:.1f}, retrying..." *)
| MsgTesting (host : string)                      (* "Testing connection to {host}..." *)
| MsgConnected                                    (* "Connection successful!" *)
| MsgConnectionFailed (code : Z)                  (* "Connection failed: HTTP {code}" *)
| MsgConnectionError (text : string)              (* "Connection failed: {e}" *)
| MsgCannotConnect                                (* "Cannot connect to ESP32-CAM. Exiting." *)
| MsgStarting (frames_to_capture interval : Z)    (* "Starting timelapse: ..." *)
| MsgFrameRange (first last : Z)                  (* "Frame range: {first:05d} to {last:05d}" *)
| MsgOutput (output basename : string)            (* "Output: {output}/{basename}_XXXXX.jpg" *)
| MsgFrame (frame_number progress frames_to_capture : Z)
                                                  (* "--- Frame {frame_number:05d} ({progress}/{frames}) ---" *)
| MsgSkipping                                     (* "Capture failed after retries, skipping frame" *)
| MsgSaved (filepath : string) (b : Q) (led : Z)  (* "Saved: {filepath} (brightness: ..., LED: {led})" *)
| MsgLedAdjustment (old_led new_led : Z)          (* "LED adjustment: {old} -> {new}" *)
| MsgNextCapture (wait_time : Q)                  (* "Next capture in {wait_time:.0f}s" *)
| MsgInterrupted                                  (* "Interrupted by user" *)
| MsgComplete (captured_count last_frame : Z).
      (* "Timelapse complete: {captured_count} frames captured (last frame: {last_frame:05d})" *)

(** The JSON record written beside an image. [None] is dumped as null. *)
Record Metadata := {
  meta_frame : Z;
  meta_timestamp : Q;
  meta_brightness : Q;
  meta_led_intensity : Z;
  meta_running_avg : option Q
}.

(** The effects of the program on the world, in the order they happen. *)
Inductive Event :=
| GetStatus
| GetControl (var : string) (val : Z)
| GetCapture
| Sleep (seconds : Q)
| Mkdir (dir : string)
| SaveJpeg (path : string) (image : Image)
| DumpJson (path : string) (metadata : Metadata)
| Log (level : Level) (msg : LogMsg).

(** ** The controller state *)

(** The instance fields of [ESP32CamTimelapse] the loop mutates, the local
    [captured_count] of [run] (it is read after the [except] clause), the
    wall clock, and how far the program has come: how many requests of each
    kind, sleeps and operations on the file system it made, and how many
    statements it reached. *)
Record State := {
  current_led : Z;
  brightness_history : list Q;
  frame_number : Z;
  captured_count : Z;
  clock : Q;
  n_control : nat;
  n_capture : nat;
  n_sleep : nat;
  n_status : nat;
  n_file : nat;
  n_point : nat
}.

Definition set_current_led (v : Z) (s : State) : State :=
  {| current_led := v; brightness_history := brightness_history s;
     frame_number := frame_number s; captured_count := captured_count s;
     clock := clock s; n_control := n_control s; n_capture := n_capture s;
     n_sleep := n_sleep s;
     n_status := n_status s; n_file := n_file s; n_point := n_point s |}.

Definition set_brightness_history (v : list Q) (s : State) : State :=
  {| current_led := current_led s; brightness_history := v;
     frame_number := frame_number s; captured_count := captured_count s;
     clock := clock s; n_control := n_control s; n_capture := n_capture s;
     n_sleep := n_sleep s;
     n_status := n_status s; n_file := n_file s; n_point := n_point s |}.

Definition set_frame_number (v : Z) (s : State) : State :=
  {| current_led := current_led s; brightness_history := brightness_history s;
     frame_number := v; captured_count := captured_count s;
     clock := clock s; n_control := n_control s; n_capture := n_capture s;
     n_sleep := n_sleep s;
     n_status := n_status s; n_file := n_file s; n_point := n_point s |}.

Definition set_captured_count (v : Z) (s : State) : State :=
  {| current_led := current_led s; brightness_history := brightness_history s;
     frame_number := frame_number s; captured_count := v;
     clock := clock s; n_control := n_control s; n_capture := n_capture s;
     n_sleep := n_sleep s;
     n_status := n_status s; n_file := n_file s; n_point := n_point s |}.

(** The world moves on: [dt] seconds pass and one more request of a kind
    (or one more sleep) has been made. *)
Definition after_control (dt : Q) (s : State) : State :=
  {| current_led := current_led s; brightness_history := brightness_history s;
     frame_number := frame_number s; captured_count := captured_count s;
     clock := (clock s + dt)%Q; n_control := S (n_control s);
     n_capture := n_capture s; n_sleep := n_sleep s;
     n_status := n_status s; n_file := n_file s; n_point := n_point s |}.

Definition after_capture (dt : Q) (s : State) : State :=
  {| current_led := current_led s; brightness_history := brightness_history s;
     frame_number := frame_number s; captured_count := captured_count s;
     clock := (clock s + dt)%Q; n_control := n_control s;
     n_capture := S (n_capture s); n_sleep := n_sleep s;
     n_status := n_status s; n_file := n_file s; n_point := n_point s |}.

Definition after_status (dt : Q) (s : State) : State :=
  {| current_led := current_led s; brightness_history := brightness_history s;
     frame_number := frame_number s; captured_count := captured_count s;
     clock := (clock s + dt)%Q; n_control := n_control s;
     n_capture := n_capture s; n_sleep := n_sleep s;
     n_status := n_status s; n_file := n_file s; n_point := n_point s |}.

Definition after_sleep (dt : Q) (s : State) : State :=
  {| current_led := current_led s; brightness_history := brightness_history s;
     frame_number := frame_number s; captured_count := captured_count s;
     clock := (clock s + dt)%Q; n_control := n_control s;
     n_capture := n_capture s; n_sleep := S (n_sleep s);
     n_status := n_status s; n_file := n_file s; n_point := n_point s |}.

(** [__init__]: the state of a fresh controller, at wall-clock time [now]. *)
Definition init (args : Args) (now : Q) : State :=
  {| current_led := led_initial args; brightness_history := [];
     frame_number := start_frame args; captured_count := 0;
     clock := now; n_control := 0; n_capture := 0; n_sleep := 0;
     n_status := 0; n_file := 0; n_point := 0 |}.

(** ** A monad for the methods: state, effects, exceptions *)

Inductive Exn := KeyboardInterrupt | ValueError | OSError | OverflowError.

Inductive Res (A : Type) :=
| Ok (a : A) (s : State) (evs : list Event)
| Raise (e : Exn) (s : State) (evs : list Event)
| OutOfFuel.

Arguments Ok {A}.
Arguments Raise {A}.
Arguments OutOfFuel {A}.

Definition M (A : Type) : Type := State -> Res A.

Definition ret {A} (a : A) : M A := fun s => Ok a s [].

Definition bind {A B} (m : M A) (f : A -> M B) : M B :=
  fun s =>
    match m s with
    | Ok a s1 e1 =>
        match f a s1 with
        | Ok b s2 e2 => Ok b s2 (e1 ++ e2)
        | Raise x s2 e2 => Raise x s2 (e1 ++ e2)
        | OutOfFuel => OutOfFuel
        end
    | Raise x s1 e1 => Raise x s1 e1
    | OutOfFuel => OutOfFuel
    end.

Declare Scope m_scope.
Delimit Scope m_scope with m.
Notation "x <- m ;; k" := (bind m (fun x => k))
  (at level 61, m at next level, right associativity) : m_scope.
Notation "m ;; k" := (bind m (fun _ => k))
  (at level 61, right associativity) : m_scope.
Local Open Scope m_scope.

Definition gets {A} (f : State -> A) : M A := fun s => Ok (f s) s [].
Definition modify (f : State -> State) : M unit := fun s => Ok tt (f s) [].
Definition emit (e : Event) : M unit := fun s => Ok tt s [e].
Definition raise {A} (x : Exn) : M A := fun s => Raise x s [].
Definition out_of_fuel {A} : M A := fun _ => OutOfFuel.

(** [if c: body] with no [else]. *)
Definition when (c : bool) (body : M unit) : M unit :=
  if c then body else ret tt.

(** [try: body / except KeyboardInterrupt: handler]. *)
Definition try_except_KeyboardInterrupt (body handler : M unit) : M unit :=
  fun s =>
    match body s with
    | Raise KeyboardInterrupt s1 e1 =>
        match handler s1 with
        | Ok b s2 e2 => Ok b s2 (e1 ++ e2)
        | Raise x s2 e2 => Raise x s2 (e1 ++ e2)
        | OutOfFuel => OutOfFuel
        end
    | r => r
    end.

(** [for x in xs: body x]. *)
Fixpoint for_each {A} (xs : list A) (body : A -> M unit) : M unit :=
  match xs with
  | [] => ret tt
  | x :: xs' => body x ;; for_each xs' body
  end.

(** [logger.<level>(msg)]. *)
Definition log (level : Level) (msg : LogMsg) : M unit := emit (Log level msg).

(** ** The methods of [ESP32CamTimelapse] *)

Inductive Outcome := Completed | Skipped.

Section Controller.

Variable args : Args.
Variable env : Env.

(** [time.sleep(seconds)]: a negative length raises [ValueError]; Ctrl-C
    during the sleep raises [KeyboardInterrupt]; otherwise the clock
    advances by [seconds]. *)
Definition sleep (seconds : Q) : M unit :=
  fun s =>
    if negb (Qle_bool 0 seconds) then Raise ValueError s []
    else if interrupted env (n_sleep s) then Raise KeyboardInterrupt s []
    else Ok tt (after_sleep seconds s) [Sleep seconds].

(** [time.time()]. *)
Definition time : M Q := gets clock.

(** [session.get(f"{base_url}/control?var={var}&val={val}", timeout=5)]. *)
Definition get_control (var : string) (val : Z) : M HttpReply :=
  fun s =>
    Ok (control_reply env (n_control s))
       (after_control (control_latency env (n_control s)) s)
       [GetControl var val].

(** [session.get(f"{base_url}/capture?_cb=...", timeout=15)]. *)
Definition get_capture : M CaptureReply :=
  fun s =>
    Ok (capture_reply env (n_capture s))
       (after_capture (capture_latency env (n_capture s)) s)
       [GetCapture].

(** [requests.get(f"{base_url}/status", timeout=5)]. *)
Definition get_status : M HttpReply :=
  fun s => Ok (status_reply env) (after_status (status_latency env) s) [GetStatus].

Definition set_control (var : string) (val : Z) : M bool :=
  response <- get_control var val ;;
  match response with
  | Status code =>
      if code =? 200 then log LvlDebug (MsgSet var val) ;; ret true
      else log LvlWarning (MsgSetFailed var code) ;; ret false
  | RequestException e => log LvlError (MsgSetError var e) ;; ret false
  end.

(** The [settings] list of [configure_camera]. *)
Definition flag (b : bool) : Z := if b then 1 else 0.

Definition settings : list (string * Z) :=
  [ ("framesize", dict_get RESOLUTIONS (resolution args) 16);
    ("quality", quality args);
    ("brightness", arg_brightness args);
    ("contrast", contrast args);
    ("saturation", saturation args);
    ("sharpness", sharpness args);
    ("denoise", denoise args);
    ("ae_level", ae_level args);
    ("gainceiling", gainceiling args);
    ("special_effect", special_effect args);
    ("awb", flag (awb args));
    ("dcw", flag (dcw args));
    ("awb_gain", flag (awb_gain args));
    ("wb_mode", wb_mode args);
    ("aec", flag (aec args));
    ("aec_value", aec_value args);
    ("aec2", flag (aec2 args));
    ("agc", flag (agc args));
    ("agc_gain", agc_gain args);
    ("raw_gma", flag (gma args));
    ("lenc", flag (lenc args));
    ("hmirror", flag (hmirror args));
    ("vflip", flag (vflip args));
    ("bpc", flag (bpc args));
    ("wpc", flag (wpc args));
    ("colorbar", flag (colorbar args)) ]%string.

Definition configure_camera : M unit :=
  log LvlInfo MsgConfiguring ;;
  for_each settings
    (fun '(var, val) => set_control var val ;; sleep (5 # 100)) ;;
  led <- gets current_led ;;
  set_control "led_intensity" led ;;
  log LvlInfo MsgConfigured.

Definition capture_image : M (option Image * string) :=
  response <- get_capture ;;
  match response with
  | CaptureStatus code content =>
      if code =? 200 then
        match content with
        | Decodes image => ret (Some image, EmptyString)
        | Undecodable e => ret (None, "Image processing error: " ++ e)%string
        end
      else ret (None, "HTTP " ++ Py.str code)%string
  | CaptureException e => ret (None, "Request error: " ++ e)%string
  end.

(** The [for attempt in range(max_retries)] loop of
    [capture_with_adaptive_led], over the attempts still to make;
    [continue] is the recursive call, falling out of the loop the empty
    list. *)
Fixpoint capture_attempts (attempts : list Z) : M (option Image * Q * Z) :=
  match attempts with
  | [] =>
      led <- gets current_led ;;
      ret (None, 0%Q, led)
  | attempt :: rest =>
      led <- gets current_led ;;
      set_control "led_intensity" led ;;
      sleep (2 # 10) ;;
      r <- capture_image ;;
      when (negb (led_always_on args))
           (set_control "led_intensity" 0 ;; ret tt) ;;
      match fst r with
      | None =>
          log LvlWarning (MsgAttemptFailed (attempt + 1) (snd r)) ;;
          sleep 1 ;;
          capture_attempts rest
      | Some image =>
          let b := calculate_brightness image in
          history <- gets brightness_history ;;
          if negb (is_consistent args history b) then
            log LvlWarning (MsgInconsistent b (get_running_average history)) ;;
            sleep (5 # 10) ;;
            capture_attempts rest
          else
            led <- gets current_led ;;
            ret (Some image, b, led)
      end
  end.

Definition capture_with_adaptive_led : M (option Image * Q * Z) :=
  capture_attempts (Py.range (max_retries args)).

Definition save_image (image : Image) (b : Q) (led : Z) : M string :=
  let output_dir := output args in
  emit (Mkdir output_dir) ;;
  n <- gets frame_number ;;
  let filename := generate_filename args n in
  let filepath := path_join output_dir filename in
  emit (SaveJpeg filepath image) ;;
  when (save_metadata args)
       (now <- time ;;
        history <- gets brightness_history ;;
        let metadata :=
          {| meta_frame := n;
             meta_timestamp := now;
             meta_brightness := b;
             meta_led_intensity := led;
             meta_running_avg := get_running_average history |} in
        let meta_path := path_join output_dir (metadata_filename args n) in
        emit (DumpJson meta_path metadata)) ;;
  ret filepath.

Definition test_connection : M bool :=
  log LvlInfo (MsgTesting (host args)) ;;
  response <- get_status ;;
  match response with
  | Status code =>
      if code =? 200 then log LvlInfo MsgConnected ;; ret true
      else log LvlError (MsgConnectionFailed code) ;; ret false
  | RequestException e => log LvlError (MsgConnectionError e) ;; ret false
  end.

(** The block "Adjust LED for next frame" of [run]. *)
Definition adjust_led (b : Q) : M unit :=
  let adjustment := calculate_led_adjustment args b in
  when (negb (adjustment =? 0))
       (led <- gets current_led ;;
        let new_led := Py.max 0 (Py.min 255 (led + adjustment)) in
        log LvlInfo (MsgLedAdjustment led new_led) ;;
        modify (set_current_led new_led)).

(** The block "Wait for next capture" of [run]. *)
Definition wait_for_next (cycle_start : Q) (end_frame : Z) : M unit :=
  n <- gets frame_number ;;
  when (n <? end_frame)
       (now <- time ;;
        let elapsed := (now - cycle_start)%Q in
        let wait_time := Py.qmax 0 (inject_Z (interval args) - elapsed) in
        when (negb (Qle_bool wait_time 0))
             (log LvlInfo (MsgNextCapture wait_time) ;;
              sleep wait_time)).

(** One pass through the body of the [while] loop of [run]. The value
    returned names the branch taken: the early [continue] ([Skipped]) or
    the fall-through ([Completed]). *)
Definition frame_cycle (start_frame frames_to_capture end_frame : Z)
  : M Outcome :=
  cycle_start <- time ;;
  n <- gets frame_number ;;
  let progress := n - start_frame + 1 in
  log LvlInfo (MsgFrame n progress frames_to_capture) ;;
  r <- capture_with_adaptive_led ;;
  let '(image, b, led) := r in
  match image with
  | None =>
      log LvlError MsgSkipping ;;
      modify (fun s => set_frame_number (frame_number s + 1) s) ;;
      sleep (inject_Z (interval args)) ;;
      ret Skipped
  | Some image =>
      filepath <- save_image image b led ;;
      log LvlInfo (MsgSaved filepath b led) ;;
      modify (fun s => set_brightness_history
                         (update_brightness_history (brightness_history s) b) s) ;;
      adjust_led b ;;
      modify (fun s => set_frame_number (frame_number s + 1) s) ;;
      modify (fun s => set_captured_count (captured_count s + 1) s) ;;
      wait_for_next cycle_start end_frame ;;
      ret Completed
  end.

(** [while self.frame_number < end_frame: ...]; [fuel] bounds the number
    of passes. *)
Fixpoint run_loop (fuel : nat) (start_frame frames_to_capture end_frame : Z)
  : M unit :=
  match fuel with
  | O => out_of_fuel
  | S fuel' =>
      n <- gets frame_number ;;
      if n <? end_frame then
        frame_cycle start_frame frames_to_capture end_frame ;;
        run_loop fuel' start_frame frames_to_capture end_frame
      else ret tt
  end.

(** Every pass advances [frame_number] by one, so the loop makes at most
    [end_frame - frame_number] passes and one more test. *)
Definition loop_fuel (end_frame : Z) (s : State) : nat :=
  S (Z.to_nat (end_frame - frame_number s)).

Definition run : M bool :=
  ok <- test_connection ;;
  if negb ok then
    log LvlError MsgCannotConnect ;;
    ret false
  else
    configure_camera ;;
    sleep 1 ;;
    let start_frame := start_frame args in
    let frames_to_capture := frames args in
    let end_frame := start_frame + frames_to_capture in
    log LvlInfo (MsgStarting frames_to_capture (interval args)) ;;
    log LvlInfo (MsgFrameRange start_frame (end_frame - 1)) ;;
    log LvlInfo (MsgOutput (output args) (basename args)) ;;
    modify (set_captured_count 0) ;;
    try_except_KeyboardInterrupt
      (fuel <- gets (loop_fuel end_frame) ;;
       run_loop fuel start_frame frames_to_capture end_frame)
      (log LvlInfo MsgInterrupted) ;;
    n <- gets frame_number ;;
    count <- gets captured_count ;;
    log LvlInfo (MsgComplete count (n - 1)) ;;
    ret true.

End Controller.

(** ** Concrete configurations, for examples *)

(** The defaults of the argument parser. *)
Definition default_args : Args :=
  {| host := "172.30.13.113"; port := 80;
     frames := 100; start_frame := 0; interval := 300;
     output := "./timelapse"; basename := "frame"; save_metadata := true;
     resolution := "FHD"; quality := 10;
     arg_brightness := 0; contrast := 0; saturation := 0; sharpness := 2;
     denoise := 0; special_effect := 0;
     ae_level := 0; gainceiling := 0; aec := true; aec_value := 320;
     aec2 := false; agc := false; agc_gain := 5;
     awb := true; dcw := true; awb_gain := false; wb_mode := 0;
     gma := false; lenc := true; bpc := false; wpc := true;
     hmirror := false; vflip := false; colorbar := false;
     led_initial := 50; led_always_on := false;
     target_brightness := 128; brightness_tolerance := 30;
     consistency_tolerance := 40; max_retries := 3 |}.

(** The defaults with another frame count, cadence and initial LED level. *)
Definition args_with (n cadence led : Z) : Args :=
  {| host := host default_args; port := port default_args;
     frames := n; start_frame := 0; interval := cadence;
     output := output default_args; basename := basename default_args;
     save_metadata := true;
     resolution := resolution default_args; quality := quality default_args;
     arg_brightness := 0; contrast := 0; saturation := 0; sharpness := 2;
     denoise := 0; special_effect := 0;
     ae_level := 0; gainceiling := 0; aec := true; aec_value := 320;
     aec2 := false; agc := false; agc_gain := 5;
     awb := true; dcw := true; awb_gain := false; wb_mode := 0;
     gma := false; lenc := true; bpc := false; wpc := true;
     hmirror := false; vflip := false; colorbar := false;
     led_initial := led; led_always_on := false;
     target_brightness := 128; brightness_tolerance := 30;
     consistency_tolerance := 40; max_retries := 3 |}.

(** A one-pixel image of a given luminance. *)
Definition flat_image (v : Z) : Image := {| gray := [v] |}.

(** A healthy device that answers every request at once and whose k-th
    capture is [shots k]; nobody presses Ctrl-C. *)
Definition device (shots : nat -> CaptureReply) : Env :=
  {| status_reply := Status 200; status_latency := 0;
     control_reply := fun _ => Status 200; control_latency := fun _ => 0%Q;
     capture_reply := shots; capture_latency := fun _ => 0%Q;
     interrupted := fun _ => false |}.

(** A device whose every capture times out. *)
Definition dead_camera : Env :=
  device (fun _ => CaptureException "timeout").

(** A device whose every capture shows the same flat image. *)
Definition steady_camera (v : Z) : Env :=
  device (fun _ => CaptureStatus 200 (Decodes (flat_image v))).

(** ** Vocabulary of the properties *)

(** The last [n] elements of a list (all of it when it is shorter). *)
Definition last_n {A} (n : nat) (l : list A) : list A :=
  skipn (List.length l - n) l.

(** The arithmetic mean of a list of samples. *)
Definition mean (xs : list Q) : Q :=
  (fold_right Qplus 0 xs / inject_Z (Z.of_nat (List.length xs)))%Q.

(** [clamp lo hi x]: [x] brought into [lo .. hi]. *)
Definition clamp (lo hi x : Z) : Z := Z.max lo (Z.min hi x).

(** The history after accepting [samples] one after the other. *)
Definition accept_all (history samples : list Q) : list Q :=
  fold_left update_brightness_history samples history.

(** The distance of a sample from the target, [target_brightness - b]. *)
Definition deviation (args : Args) (b : Q) : Q :=
  (inject_Z (target_brightness args) - b)%Q.

(** *** Outcomes of a method *)

(** [post m s Qok Qex]: run from [s], the method [m] returns a value, a state
    and effects satisfying [Qok], or raises with a state and effects
    satisfying [Qex]; the loop bound is never what stops it. *)
Definition post {A} (m : M A) (s : State)
    (Qok : A -> State -> list Event -> Prop)
    (Qex : Exn -> State -> list Event -> Prop) : Prop :=
  match m s with
  | Ok a s' evs => Qok a s' evs
  | Raise x s' evs => Qex x s' evs
  | OutOfFuel => False
  end.

(** Nobody presses Ctrl-C. *)
Definition quiet (env : Env) : Prop := forall k, interrupted env k = false.

(** The fields of the controller object (and the counter of [run]). *)
Definition self_of (s : State) : Z * list Q * Z * Z :=
  (current_led s, brightness_history s, frame_number s, captured_count s).

(** *** Reading a trace of effects *)

(** Files written: images and metadata records. *)
Definition is_write (e : Event) : bool :=
  match e with
  | SaveJpeg _ _ | DumpJson _ _ => true
  | _ => false
  end.

Definition writes (evs : list Event) : list Event := filter is_write evs.

(** Health probes. *)
Definition is_probe (e : Event) : bool :=
  match e with
  | GetStatus => true
  | _ => false
  end.

Definition probes (evs : list Event) : list Event := filter is_probe evs.

(** Capture requests: the attempts at a frame. *)
Definition is_capture (e : Event) : bool :=
  match e with
  | GetCapture => true
  | _ => false
  end.

Definition captures (evs : list Event) : list Event := filter is_capture evs.

(** The sequence numbers of the cycles started, from their header lines. *)
Definition cycle_number (e : Event) : list Z :=
  match e with
  | Log _ (MsgFrame n _ _) => [n]
  | _ => []
  end.

Definition cycle_numbers (evs : list Event) : list Z := flat_map cycle_number evs.

(** The durations slept. *)
Definition sleep_of (e : Event) : list Q :=
  match e with
  | Sleep d => [d]
  | _ => []
  end.

Definition sleeps (evs : list Event) : list Q := flat_map sleep_of evs.

(** What the retry loop does to the world: LED and capture requests, settle
    and back-off sleeps, and their log lines. *)
Definition camera_traffic (e : Event) : bool :=
  match e with
  | GetControl _ _ | GetCapture | Sleep _ => true
  | Log _ (MsgSet _ _) | Log _ (MsgSetFailed _ _) | Log _ (MsgSetError _ _)
  | Log _ (MsgAttemptFailed _ _) | Log _ (MsgInconsistent _ _) => true
  | _ => false
  end.

(** [z, z+1, ..., z+n-1]. *)
Definition count_from (z : Z) (n : nat) : list Z :=
  map (fun i => z + Z.of_nat i) (seq 0 n).

(** What [capture_image] makes of a reply. *)
Definition decode (response : CaptureReply) : option Image * string :=
  match response with
  | CaptureStatus code content =>
      if code =? 200 then
        match content with
        | Decodes image => (Some image, EmptyString)
        | Undecodable e => (None, "Image processing error: " ++ e)%string
        end
      else (None, "HTTP " ++ Py.str code)%string
  | CaptureException e => (None, "Request error: " ++ e)%string
  end.

(** The k-th capture fails as an attempt against [history]: no image, or an
    image whose brightness the consistency check rejects. *)
Definition attempt_fails (args : Args) (env : Env) (history : list Q) (k : nat)
  : bool :=
  match fst (decode (capture_reply env k)) with
  | None => true
  | Some image => negb (is_consistent args history (calculate_brightness image))
  end.

(** *** What the retry loop guarantees

    However the device behaves, [capture_with_adaptive_led] touches no
    field of the controller and does nothing to the world but camera
    traffic. An image it returns passed the consistency check against the
    history as it stands, with [current_led] as the level used; it returns
    no image exactly when every attempt failed. *)
Definition attempts_ok (args : Args) (env : Env) (s : State) (n : nat)
    (r : option Image * Q * Z) (s' : State) (evs : list Event) : Prop :=
  self_of s' = self_of s /\
  forallb camera_traffic evs = true /\
  match r with
  | (Some image, b, led) =>
      b = calculate_brightness image /\
      is_consistent args (brightness_history s) b = true /\
      led = current_led s /\
      exists k, (k < n)%nat /\
                attempt_fails args env (brightness_history s) (n_capture s + k)
                = false
  | (None, b, led) =>
      b = 0%Q /\ led = current_led s /\
      forall k, (k < n)%nat ->
                attempt_fails args env (brightness_history s) (n_capture s + k)
                = true
  end.

(** The loop raises only when Ctrl-C arrives, and then too it has touched
    nothing but the camera. *)
Definition interrupted_in_traffic (env : Env) (s : State)
    (x : Exn) (s' : State) (evs : list Event) : Prop :=
  x = KeyboardInterrupt /\ ~ quiet env /\
  self_of s' = self_of s /\ forallb camera_traffic evs = true.

(** *** What one frame cycle guarantees *)

(** The wait at the end of a completed cycle that started at [cycle_start],
    run from [s]: nothing happens after the last frame or when the cadence is
    used up; otherwise the loop sleeps what is left of the cadence. *)
Definition wait_ok (args : Args) (cycle_start : Q) (end_frame : Z)
    (s s' : State) (evs : list Event) : Prop :=
  let elapsed := (clock s - cycle_start)%Q in
  let wait_time := Py.qmax 0 (inject_Z (interval args) - elapsed) in
  self_of s' = self_of s /\
  if (frame_number s <? end_frame) && negb (Qle_bool wait_time 0)
  then evs = [Log LvlInfo (MsgNextCapture wait_time); Sleep wait_time]
       /\ clock s' = (clock s + wait_time)%Q
  else evs = [] /\ s' = s.

(** The files a completed cycle writes for frame [n] of brightness [b],
    taken at level [led] with [history] in the window. *)
Definition frame_files (args : Args) (n : Z) (image : Image) (b : Q) (led : Z)
    (history : list Q) (timestamp : Q) : list Event :=
  SaveJpeg (path_join (output args) (generate_filename args n)) image
  :: if save_metadata args
     then [DumpJson (path_join (output args) (metadata_filename args n))
                    {| meta_frame := n;
                       meta_timestamp := timestamp;
                       meta_brightness := b;
                       meta_led_intensity := led;
                       meta_running_avg := get_running_average history |}]
     else [].

(** A cycle that resolved, from [s] to [s'] with effects [evs]; [slept]
    tells whether the sleep that ends a skipped cycle was taken. *)
Definition cycle_ok (args : Args) (env : Env) (s : State) (slept : bool)
    (o : Outcome) (s' : State) (evs : list Event) : Prop :=
  frame_number s' = frame_number s + 1 /\
  cycle_numbers evs = [frame_number s] /\
  probes evs = [] /\
  match o with
  | Skipped =>
      current_led s' = current_led s /\
      brightness_history s' = brightness_history s /\
      captured_count s' = captured_count s /\
      writes evs = [] /\
      (forall k, (k < Z.to_nat (max_retries args))%nat ->
                 attempt_fails args env (brightness_history s) (n_capture s + k)
                 = true) /\
      exists evs0,
        evs = evs0 ++ Log LvlError MsgSkipping
                   :: if slept then [Sleep (inject_Z (interval args))] else []
  | Completed =>
      exists image timestamp,
        let b := calculate_brightness image in
        is_consistent args (brightness_history s) b = true /\
        (exists k, (k < Z.to_nat (max_retries args))%nat /\
                   attempt_fails args env (brightness_history s) (n_capture s + k)
                   = false) /\
        brightness_history s'
        = update_brightness_history (brightness_history s) b /\
        current_led s' = adjusted_led args (current_led s) b /\
        captured_count s' = captured_count s + 1 /\
        writes evs
        = frame_files args (frame_number s) image b (current_led s)
                      (brightness_history s) timestamp
  end.

(** Why a method raises: Ctrl-C arrived, or [time.sleep] was handed a
    negative cadence. *)
Definition raised_because (args : Args) (env : Env) (x : Exn) : Prop :=
  x = KeyboardInterrupt /\ ~ quiet env \/ x = ValueError /\ interval args < 0.

(** A cycle cut short by Ctrl-C among its attempts, before it resolved: the
    controller is as it was, and after the header line only the camera was
    touched. *)
Definition cycle_cut (s s' : State) (evs : list Event) : Prop :=
  self_of s' = self_of s /\
  exists progress n e,
    evs = Log LvlInfo (MsgFrame (frame_number s) progress n) :: e /\
    forallb camera_traffic e = true.

(** A cycle that raises: it was cut short, or it had resolved and its
    closing sleep raised. *)
Definition cycle_raises (args : Args) (env : Env) (s : State)
    (x : Exn) (s' : State) (evs : list Event) : Prop :=
  raised_because args env x /\
  cycle_numbers evs = [frame_number s] /\
  probes evs = [] /\
  (cycle_cut s s' evs \/ exists o, cycle_ok args env s false o s' evs).

(** *** What the loop and a run guarantee *)

(** Effects that are neither a health probe, nor an attempt at a frame, nor
    a file written, nor the header of a cycle. *)
Definition housekeeping (e : Event) : bool :=
  match e with
  | GetStatus | GetCapture | Mkdir _ | SaveJpeg _ _ | DumpJson _ _ => false
  | Log _ (MsgFrame _ _ _) => false
  | _ => true
  end.

(** The device answers the health probe with status 200. *)
Definition healthy (env : Env) : bool :=
  match status_reply env with
  | Status code => code =? 200
  | RequestException _ => false
  end.

(** The [while] loop ran from [s] until the frame count was reached. The
    cycles carry the consecutive numbers from [frame_number s] up to
    [end_frame - 1]; if any ran, the last one resolved into [s']. *)
Definition loop_ok (args : Args) (env : Env) (end_frame : Z) (s : State)
    (s' : State) (evs : list Event) : Prop :=
  frame_number s' = Z.max (frame_number s) end_frame /\
  cycle_numbers evs
  = count_from (frame_number s) (Z.to_nat (end_frame - frame_number s)) /\
  probes evs = [] /\
  (s' = s /\ evs = [] /\ end_frame <= frame_number s \/
   exists s0 o evs0 evs1,
     evs = evs0 ++ evs1 /\ cycle_ok args env s0 true o s' evs1).

(** The loop raised in its cycle number [frame_number s + k], after [k]
    whole cycles. *)
Definition loop_raises (args : Args) (env : Env) (end_frame : Z) (s : State)
    (x : Exn) (s' : State) (evs : list Event) : Prop :=
  raised_because args env x /\
  probes evs = [] /\
  exists k s0 evs0 evs1,
    cycle_numbers evs = count_from (frame_number s) (S k) /\
    frame_number s + Z.of_nat k < end_frame /\
    evs = evs0 ++ evs1 /\
    frame_number s0 = frame_number s + Z.of_nat k /\
    (cycle_cut s0 s' evs1 \/ exists o, cycle_ok args env s0 false o s' evs1).

(** How the loop of a run ended: at the frame count, or at Ctrl-C, which
    [run] catches and logs. *)
Definition loop_ended (args : Args) (env : Env) (end_frame : Z) (s : State)
    (s' : State) (evs tail : list Event) : Prop :=
  loop_ok args env end_frame s s' evs /\ tail = [] \/
  loop_raises args env end_frame s KeyboardInterrupt s' evs /\
  tail = [Log LvlInfo MsgInterrupted].

(** A run that returns. It starts with the health probe, the only one. When
    the probe fails nothing else happens. Otherwise the camera is set up
    ([setup], from which the loop starts in [s1]), the loop runs ([looped])
    and the last line logged reports the frame cursor minus one. *)
Definition run_ok (args : Args) (env : Env) (s : State)
    (ok : bool) (s' : State) (evs : list Event) : Prop :=
  ok = healthy env /\
  probes evs = [GetStatus] /\
  if ok then
    exists s1 setup looped tail,
      evs = Log LvlInfo (MsgTesting (host args)) :: GetStatus :: setup
            ++ looped ++ tail
            ++ [Log LvlInfo (MsgComplete (captured_count s') (frame_number s' - 1))] /\
      forallb housekeeping setup = true /\
      current_led s1 = current_led s /\
      brightness_history s1 = brightness_history s /\
      frame_number s1 = frame_number s /\
      captured_count s1 = 0 /\
      loop_ended args env (start_frame args + frames args) s1 s' looped tail
  else
    self_of s' = self_of s /\
    exists lvl msg,
      evs = [Log LvlInfo (MsgTesting (host args)); GetStatus; Log lvl msg;
             Log LvlError MsgCannotConnect] /\
      forallb housekeeping [Log lvl msg] = true.

(** A run that raises: the probe had succeeded, and Ctrl-C arrived during
    the set-up, before any cycle, or the loop raised [ValueError]. *)
Definition run_raises (args : Args) (env : Env) (s : State)
    (x : Exn) (s' : State) (evs : list Event) : Prop :=
  healthy env = true /\
  raised_because args env x /\
  probes evs = [GetStatus] /\
  exists setup looped,
    evs = Log LvlInfo (MsgTesting (host args)) :: GetStatus :: setup ++ looped /\
    forallb housekeeping setup = true /\
    (looped = [] /\ x = KeyboardInterrupt /\ self_of s' = self_of s \/
     exists s1,
       frame_number s1 = frame_number s /\
       loop_raises args env (start_frame args + frames args) s1 ValueError s' looped).

(** *** What a run reports and what it persisted *)

(** The frame number in the last line a run logs. *)
Definition reported (evs : list Event) : option Z :=
  match last evs GetStatus with
  | Log _ (MsgComplete _ n) => Some n
  | _ => None
  end.

(** An image file was written for sequence number [n]. *)
Definition persisted (args : Args) (evs : list Event) (n : Z) : Prop :=
  exists image,
    In (SaveJpeg (path_join (output args) (generate_filename args n)) image) evs.

(** [--no-metadata]. *)
Definition without_metadata (a : Args) : Args :=
  {| host := host a; port := port a;
     frames := frames a; start_frame := start_frame a; interval := interval a;
     output := output a; basename := basename a; save_metadata := false;
     resolution := resolution a; quality := quality a;
     arg_brightness := arg_brightness a; contrast := contrast a;
     saturation := saturation a; sharpness := sharpness a;
     denoise := denoise a; special_effect := special_effect a;
     ae_level := ae_level a; gainceiling := gainceiling a; aec := aec a;
     aec_value := aec_value a; aec2 := aec2 a; agc := agc a;
     agc_gain := agc_gain a;
     awb := awb a; dcw := dcw a; awb_gain := awb_gain a; wb_mode := wb_mode a;
     gma := gma a; lenc := lenc a; bpc := bpc a; wpc := wpc a;
     hmirror := hmirror a; vflip := vflip a; colorbar := colorbar a;
     led_initial := led_initial a; led_always_on := led_always_on a;
     target_brightness := target_brightness a;
     brightness_tolerance := brightness_tolerance a;
     consistency_tolerance := consistency_tolerance a;
     max_retries := max_retries a |}.

(** The events and the final state of a result, whatever it is. *)
Definition events_of {A} (r : Res A) : list Event :=
  match r with
  | Ok _ _ evs | Raise _ _ evs => evs
  | OutOfFuel => []
  end.

(** *** What a cycle does to the history *)

(** A completed cycle inserts the brightness of its image, which passed the
    consistency check against the history before the insertion; from then
    on the sample is the newest of the window. A skipped cycle inserts
    nothing. *)
Definition history_step (args : Args) (s : State) (o : Outcome) (s' : State)
  : Prop :=
  match o with
  | Completed =>
      exists image,
        let b := calculate_brightness image in
        is_consistent args (brightness_history s) b = true /\
        brightness_history s'
        = update_brightness_history (brightness_history s) b /\
        last (brightness_history s') 0%Q = b /\
        current_led s' = adjusted_led args (current_led s) b
  | Skipped => brightness_history s' = brightness_history s
  end.

(** The files a cycle wrote, by its outcome. *)
Definition files_written (args : Args) (s : State) (o : Outcome)
    (evs : list Event) : Prop :=
  match o with
  | Completed =>
      exists image timestamp,
        writes evs
        = frame_files args (frame_number s) image (calculate_brightness image)
                      (current_led s) (brightness_history s) timestamp
  | Skipped => writes evs = []
  end.

(** *** More devices, for examples *)

(** A camera whose first three captures time out and that then shows a
    steady scene. *)
Definition flaky_camera (v : Z) : Env :=
  device (fun k => if (k <? 3)%nat then CaptureException "timeout"
                   else CaptureStatus 200 (Decodes (flat_image v))).

(** A device that passes the health probe and then refuses everything:
    every setting is answered 500, every capture 503. *)
Definition stubborn_device : Env :=
  {| status_reply := Status 200; status_latency := 0;
     control_reply := fun _ => Status 500; control_latency := fun _ => 0%Q;
     capture_reply := fun _ => CaptureStatus 503 (Undecodable "");
     capture_latency := fun _ => 0%Q;
     interrupted := fun _ => false |}.

(** A device that does not answer the health probe. *)
Definition unreachable_device : Env :=
  {| status_reply := RequestException "connection refused"; status_latency := 5;
     control_reply := fun _ => Status 200; control_latency := fun _ => 0%Q;
     capture_reply := fun _ => CaptureStatus 200 (Decodes (flat_image 80));
     capture_latency := fun _ => 0%Q;
     interrupted := fun _ => false |}.

(** A steady scene, and Ctrl-C in the sleep number [k]. *)
Definition interrupted_at (k : nat) (v : Z) : Env :=
  {| status_reply := Status 200; status_latency := 0;
     control_reply := fun _ => Status 200; control_latency := fun _ => 0%Q;
     capture_reply := fun _ => CaptureStatus 200 (Decodes (flat_image v));
     capture_latency := fun _ => 0%Q;
     interrupted := fun i => (i =? k)%nat |}.

(** The settings sent to the device, in order. *)
Definition control_of (e : Event) : list (string * Z) :=
  match e with
  | GetControl var val => [(var, val)]
  | _ => []
  end.

Definition controls (evs : list Event) : list (string * Z) :=
  flat_map control_of evs.

(** *** Reading sequence numbers back *)

(** The decimal digits as characters: what [\d] matches on an ASCII
    string. *)
Definition is_digit (c : ascii) : bool :=
  let n := nat_of_ascii c in ((48 <=? n) && (n <=? 57))%nat.

Fixpoint all_digits (s : string) : bool :=
  match s with
  | EmptyString => true
  | String c s' => is_digit c && all_digits s'
  end.

(** The integer a string of decimal digits denotes, continuing from
    [acc]: what [int] returns on it. *)
Fixpoint int_of_digits_from (acc : Z) (s : string) : Z :=
  match s with
  | EmptyString => acc
  | String c s' =>
      int_of_digits_from (10 * acc + (Z.of_nat (nat_of_ascii c) - 48)) s'
  end.

Definition int_of_digits (s : string) : Z := int_of_digits_from 0 s.

(** The same with an optional minus sign in front. *)
Definition int_of_str (s : string) : Z :=
  match s with
  | String c s' => if Ascii.eqb c "-" then - int_of_digits s' else int_of_digits s
  | EmptyString => 0
  end.

(** ** The assembler's pattern for frame files ([assemble_timelapse.py]) *)

(** [s] without its prefix [p], if it starts with it. *)
Fixpoint strip_prefix (p s : string) : option string :=
  match p with
  | EmptyString => Some s
  | String c p' =>
      match s with
      | String d s' => if Ascii.eqb c d then strip_prefix p' s' else None
      | EmptyString => None
      end
  end.

(** [\d{n}] at the head of [s]: the [n] digits and what follows them. *)
Fixpoint take_digits (n : nat) (s : string) : option (string * string) :=
  match n with
  | O => Some (EmptyString, s)
  | S n' =>
      match s with
      | String c s' =>
          if is_digit c then
            match take_digits n' s' with
            | Some (d, rest) => Some (String c d, rest)
            | None => None
            end
          else None
      | EmptyString => None
      end
  end.

Definition newline : string := String (ascii_of_nat 10) EmptyString.

(** [re.compile(rf"^{re.escape(basename)}_(\d{{5}})\.jpg$").match(name)], on
    ASCII names: group 1 of the match, or [None]. The escaped base name
    matches itself; [$] matches at the end of the name or before a newline
    that ends it. *)
Definition pattern_match (basename name : string) : option string :=
  match strip_prefix (basename ++ "_") name with
  | Some rest =>
      match take_digits 5 rest with
      | Some (digits, tail) =>
          if String.eqb tail ".jpg" || String.eqb tail (".jpg" ++ newline)
          then Some digits else None
      | None => None
      end
  | None => None
  end.

(** The frame number [find_images] gives a file of that name:
    [int(match.group(1))], when the pattern matches. *)
Definition frame_of_name (basename name : string) : option Z :=
  match pattern_match basename name with
  | Some digits => Some (int_of_digits digits)
  | None => None
  end.

(** *** The cycles of a loop, one after the other *)

(** From [s] the loop went through cycles with effects [evs] and stands in
    [s']: no cycle; or a cycle that resolved and took its closing sleep,
    then more; or, last, a cycle cut short, or one that resolved and whose
    closing sleep raised. *)
Inductive cycles (args : Args) (env : Env)
  : State -> State -> list Event -> Prop :=
| cycles_none s : cycles args env s s []
| cycles_more s o s1 e1 s' e2 :
    cycle_ok args env s true o s1 e1 ->
    cycles args env s1 s' e2 ->
    cycles args env s s' (e1 ++ e2)
| cycles_cut s s' evs :
    cycle_cut s s' evs -> cycles args env s s' evs
| cycles_stopped s o s' evs :
    cycle_ok args env s false o s' evs -> cycles args env s s' evs.

(** The paths of the files written, in the order of the writes. *)
Definition path_of (e : Event) : list string :=
  match e with
  | SaveJpeg path _ | DumpJson path _ => [path]
  | _ => []
  end.

Definition paths_written (evs : list Event) : list string :=
  flat_map path_of evs.

(** The images saved. *)
Definition is_image (e : Event) : bool :=
  match e with
  | SaveJpeg _ _ => true
  | _ => false
  end.

Definition images_saved (evs : list Event) : list Event := filter is_image evs.

(** The paths of the files of frame [n]: the image, and the record when
    records are kept. *)
Definition frame_paths (args : Args) (n : Z) : list string :=
  path_join (output args) (generate_filename args n)
  :: if save_metadata args
     then [path_join (output args) (metadata_filename args n)]
     else [].

(** The count of frames in the last line a run logs. *)
Definition reported_count (evs : list Event) : option Z :=
  match last evs GetStatus with
  | Log _ (MsgComplete count _) => Some count
  | _ => None
  end.

(** *** Limits the controller keeps *)

(** An LED level the device accepts. *)
Definition level_ok (v : Z) : bool := (0 <=? v) && (v <=? 255).

(** The fields of the controller within their limits: the LED level in
    0..255, at most 10 samples in the history. *)
Definition within_limits (s : State) : Prop :=
  level_ok (current_led s) = true /\
  (List.length (brightness_history s) <= 10)%nat.

(** An effect that carries no LED level out of range: a command to the LED,
    or the level written in a metadata record. *)
Definition led_safe (e : Event) : bool :=
  match e with
  | GetControl var val =>
      if String.eqb var "led_intensity" then level_ok val else true
  | DumpJson _ metadata => level_ok (meta_led_intensity metadata)
  | _ => true
  end.

(** [keeps m V]: run within the limits, the method [m] stays within them,
    has only safe effects, and the value it returns satisfies [V]; when it
    raises, the limits and the effects are as good. *)
Definition keeps {A} (m : M A) (V : A -> Prop) : Prop :=
  forall s, within_limits s ->
    match m s with
    | Ok a s' evs => within_limits s' /\ forallb led_safe evs = true /\ V a
    | Raise _ s' evs => within_limits s' /\ forallb led_safe evs = true
    | OutOfFuel => True
    end.

(** Any value will do. *)
Definition any {A} : A -> Prop := fun _ => True.

(** *** What an attempt does to the device *)

(** The requests that act on the device: a level commanded to the LED, a
    capture. *)
Inductive Action := LedTo (level : Z) | Shoot.

Definition action_of (e : Event) : list Action :=
  match e with
  | GetControl var val =>
      if String.eqb var "led_intensity" then [LedTo val] else []
  | GetCapture => [Shoot]
  | _ => []
  end.

Definition actions (evs : list Event) : list Action := flat_map action_of evs.

(** One attempt at level [led]: LED on, capture, and LED off unless it is
    to stay on. *)
Definition attempt_actions (args : Args) (led : Z) : list Action :=
  LedTo led :: Shoot :: if led_always_on args then [] else [LedTo 0].

(** ** The entry point ([main] of [esp32cam_timelapse.py]) *)

(** [controller.args.frames = n]. *)
Definition with_frames (n : Z) (a : Args) : Args :=
  {| host := host a; port := port a;
     frames := n; start_frame := start_frame a; interval := interval a;
     output := output a; basename := basename a;
     save_metadata := save_metadata a;
     resolution := resolution a; quality := quality a;
     arg_brightness := arg_brightness a; contrast := contrast a;
     saturation := saturation a; sharpness := sharpness a;
     denoise := denoise a; special_effect := special_effect a;
     ae_level := ae_level a; gainceiling := gainceiling a; aec := aec a;
     aec_value := aec_value a; aec2 := aec2 a; agc := agc a;
     agc_gain := agc_gain a;
     awb := awb a; dcw := dcw a; awb_gain := awb_gain a; wb_mode := wb_mode a;
     gma := gma a; lenc := lenc a; bpc := bpc a; wpc := wpc a;
     hmirror := hmirror a; vflip := vflip a; colorbar := colorbar a;
     led_initial := led_initial a; led_always_on := led_always_on a;
     target_brightness := target_brightness a;
     brightness_tolerance := brightness_tolerance a;
     consistency_tolerance := consistency_tolerance a;
     max_retries := max_retries a |}.

(** [_setup_logging]: when an output directory is named it is made, for
    the log file; the handlers are where the [Log] effects go. *)
Definition setup_logging (args : Args) : M unit :=
  when (negb (String.eqb (output args) EmptyString))
       (emit (Mkdir (output args))).

(** [main], from the parsed arguments on: the controller is created at
    wall-clock time [now]; [test] is [args.test]. In test mode
    [sys.exit(0)] ends the program where the branch ends. *)
Definition main (test : bool) (args : Args) (env : Env) (now : Q) : Res unit :=
  (setup_logging args ;;
   if test then
     ok <- test_connection args env ;;
     when ok
          (configure_camera args env ;;
           sleep env 1 ;;
           run (with_frames 1 args) env ;;
           ret tt)
   else
     run args env ;;
     ret tt) (init args now).

(** ** The frames the assembler finds ([find_images]) and its gap check *)

Section Assembler.

(** The metadata of an image as a Python [dict], and the block of
    [find_images] that loads it for an image path: the record beside the
    image when there is one and it parses, the empty [dict] otherwise. *)
Variable Dict : Type.
Variable load_metadata : string -> Dict.

(** [metadata.get('timestamp', '')]. *)
Variable timestamp_of : Dict -> string.

(** An entry of the list [find_images] returns. *)
Record Capture := {
  frame : Z;
  image_path : string;
  metadata : Dict;
  timestamp : string
}.

(** The body of the [for] loop: what a name yielded by the glob adds to
    [captures]. *)
Definition capture_of (capture_dir basename name : string) : list Capture :=
  match pattern_match basename name with
  | Some digits =>
      let img_path := path_join capture_dir name in
      let metadata := load_metadata img_path in
      [{| frame := int_of_digits digits;
          image_path := img_path;
          metadata := metadata;
          timestamp := timestamp_of metadata |}]
  | None => []
  end.

(** [sorted(captures, key=lambda x: x['frame'])]: a stable sort, here by
    insertion from the right. *)
Fixpoint insert_by_frame (c : Capture) (l : list Capture) : list Capture :=
  match l with
  | [] => [c]
  | x :: l' =>
      if frame c <=? frame x then c :: l else x :: insert_by_frame c l'
  end.

Definition sorted_by_frame (l : list Capture) : list Capture :=
  fold_right insert_by_frame [] l.

(** [find_images], over the names the glob yields, in its order. *)
Definition find_images (capture_dir : string) (globbed : list string)
    (basename : string) : list Capture :=
  sorted_by_frame (flat_map (capture_of capture_dir basename) globbed).

(** The check for gaps of [main], on a list that is not empty: the number
    in the warning when one is printed. *)
Definition gap_check (captures : list Capture) : option Z :=
  match captures with
  | [] => None
  | first :: _ =>
      let first_frame := frame first in
      let last_frame := frame (last captures first) in
      let expected_count := last_frame - first_frame + 1 in
      if Z.of_nat (List.length captures) <? expected_count
      then Some (expected_count - Z.of_nat (List.length captures))
      else None
  end.

End Assembler.

Arguments frame {Dict}.
Arguments image_path {Dict}.
Arguments metadata {Dict}.
Arguments timestamp {Dict}.
Arguments gap_check {Dict}.

(** The numbers between [first] and [last] that are not in [fs]. *)
Definition missing_between (fs : list Z) (first last : Z) : list Z :=
  filter (fun n => negb (existsb (Z.eqb n) fs))
         (count_from first (Z.to_nat (last - first + 1))).

(** The frame numbers read off the names the glob yields, in its order. *)
Definition frames_named (basename : string) (globbed : list string) : list Z :=
  flat_map (fun name => match frame_of_name basename name with
                        | Some n => [n]
                        | None => []
                        end) globbed.

(** The actions of a retry loop of [n] attempts at level [led] that Ctrl-C
    interrupted after [k] whole attempts: in the settle delay of the next
    attempt, with the LED commanded on and no capture made, or in the
    pause that follows a failed attempt. *)
Definition interrupted_actions (args : Args) (led : Z) (n : nat)
    (acts : list Action) : Prop :=
  exists k,
    (k < n)%nat /\
    (acts = List.concat (repeat (attempt_actions args led) k) ++ [LedTo led] \/
     acts = List.concat (repeat (attempt_actions args led) (S k))).

(** * Properties *)

(** ** Python builtins *)

Lemma py_max_spec a b : Py.max a b = Z.max a b.
Proof. unfold Py.max. destruct (Z.ltb_spec a b); lia. Qed.

Lemma py_min_spec a b : Py.min a b = Z.min a b.
Proof. unfold Py.min. destruct (Z.ltb_spec b a); lia. Qed.

Lemma py_clamp_spec lo hi x : Py.max lo (Py.min hi x) = clamp lo hi x.
Proof. unfold clamp. now rewrite py_max_spec, py_min_spec. Qed.

Lemma clamp_range lo hi x : lo <= hi -> lo <= clamp lo hi x <= hi.
Proof. unfold clamp. lia. Qed.

Lemma clamp_id lo hi x : lo <= x <= hi -> clamp lo hi x = x.
Proof. unfold clamp. lia. Qed.

Lemma py_qmax_zero x : (0 <= Py.qmax 0 x)%Q.
Proof.
  unfold Py.qmax. destruct (Qle_bool x 0) eqn:E.
  - apply Qle_refl.
  - destruct (Qlt_le_dec 0 x) as [H | H].
    + now apply Qlt_le_weak.
    + apply Qle_bool_iff in H. congruence.
Qed.

Lemma py_qmax_zero_pos x : (0 < x)%Q -> Py.qmax 0 x = x.
Proof.
  intros H. unfold Py.qmax. destruct (Qle_bool x 0) eqn:E; [| reflexivity].
  apply Qle_bool_iff in E. exfalso. exact (Qlt_not_le _ _ H E).
Qed.

Lemma py_qmax_zero_neg x : (x <= 0)%Q -> Py.qmax 0 x = 0%Q.
Proof.
  intros H. unfold Py.qmax. apply Qle_bool_iff in H. now rewrite H.
Qed.

(** [int] truncates toward zero: its magnitude is the floor of the
    magnitude, its sign the sign of the argument. *)
Lemma py_int_abs q : Z.abs (Py.int q) = Qfloor (Qabs q).
Proof.
  destruct q as [n d]. unfold Py.int, Qabs, Qfloor. cbn [Qnum Qden].
  rewrite <- (Z.quot_div_nonneg (Z.abs n) (Z.pos d)) by lia.
  rewrite <- (Z.quot_abs n (Z.pos d)) by lia.
  f_equal.
Qed.

Lemma py_int_nonneg q : (0 <= q)%Q -> 0 <= Py.int q.
Proof.
  destruct q as [n d]. unfold Qle, Py.int. cbn. intros H.
  apply Z.quot_pos; lia.
Qed.

Lemma py_int_nonpos q : (q <= 0)%Q -> Py.int q <= 0.
Proof.
  destruct q as [n d]. unfold Qle, Py.int. cbn. intros H.
  assert (Hn : n <= 0) by lia.
  replace n with (- (- n)) by lia. rewrite Z.quot_opp_l by lia.
  assert (0 <= (- n) ÷ Z.pos d) by (apply Z.quot_pos; lia). lia.
Qed.

(** ** Brightness history *)

Lemma sum_fold_left (xs : list Q) (a : Q) :
  (fold_left Qplus xs a == a + fold_right Qplus 0 xs)%Q.
Proof.
  revert a. induction xs as [| x xs IH]; intros a; cbn [fold_left fold_right].
  - ring.
  - rewrite IH. ring.
Qed.

Lemma py_sum_spec (xs : list Q) : (Py.sum xs == fold_right Qplus 0 xs)%Q.
Proof. unfold Py.sum. rewrite sum_fold_left. ring. Qed.

Lemma get_running_average_nil : get_running_average [] = None.
Proof. reflexivity. Qed.

Lemma get_running_average_mean (h : list Q) :
  h <> [] ->
  exists avg, get_running_average h = Some avg /\ (avg == mean h)%Q.
Proof.
  intros Hne. destruct h as [| x h]; [congruence |].
  eexists. split; [reflexivity |].
  unfold mean. now rewrite py_sum_spec.
Qed.

Lemma get_running_average_none (h : list Q) :
  get_running_average h = None <-> h = [].
Proof. destruct h; cbn; split; intros; congruence. Qed.

Lemma last_n_length {A} n (l : list A) :
  List.length (last_n n l) = Nat.min n (List.length l).
Proof. unfold last_n. rewrite length_skipn. lia. Qed.

Lemma last_n_short {A} n (l : list A) :
  (List.length l <= n)%nat -> last_n n l = l.
Proof.
  intros H. unfold last_n.
  replace (List.length l - n)%nat with 0%nat by lia. reflexivity.
Qed.

Lemma tl_skipn_app {A} k (l : list A) (x : A) :
  (k < List.length l)%nat -> tl (skipn k l ++ [x]) = skipn (S k) (l ++ [x]).
Proof.
  revert k. induction l as [| a l IH]; intros k Hk; cbn in Hk; [lia |].
  destruct k as [| k].
  - reflexivity.
  - cbn [skipn app]. rewrite IH by lia. reflexivity.
Qed.

(** Accepting one more sample keeps the window on the last 10 samples. *)
Lemma update_last_n (l : list Q) (b : Q) :
  update_brightness_history (last_n 10 l) b = last_n 10 (l ++ [b]).
Proof.
  unfold update_brightness_history.
  rewrite length_app, last_n_length. cbn [List.length].
  destruct (Nat.ltb_spec 10 (Nat.min 10 (List.length l) + 1)) as [H | H].
  - unfold last_n. rewrite length_app. cbn [List.length].
    rewrite tl_skipn_app by lia. f_equal. lia.
  - rewrite (last_n_short 10 l) by lia.
    rewrite last_n_short; [reflexivity |].
    rewrite length_app. cbn [List.length]. lia.
Qed.

Lemma accept_all_app (h xs ys : list Q) :
  accept_all h (xs ++ ys) = accept_all (accept_all h xs) ys.
Proof. unfold accept_all. apply fold_left_app. Qed.

(** Starting from the empty history, the window holds the last 10 accepted
    samples, oldest first. *)
Lemma accept_all_window (samples : list Q) :
  accept_all [] samples = last_n 10 samples.
Proof.
  induction samples as [| b samples IH] using rev_ind.
  - reflexivity.
  - rewrite accept_all_app, IH. cbn. apply update_last_n.
Qed.

Lemma update_brightness_history_length (h : list Q) (b : Q) :
  (List.length h <= 10)%nat ->
  (List.length (update_brightness_history h b) <= 10)%nat.
Proof.
  intros H. unfold update_brightness_history.
  destruct (Nat.ltb_spec 10 (List.length (h ++ [b]))) as [E | E]; [| exact E].
  rewrite length_app in E. cbn in E.
  destruct h as [| x h]; cbn in *; [lia |].
  rewrite length_app. cbn. lia.
Qed.

(** ** Consistency check *)

Lemma is_consistent_nil args b : is_consistent args [] b = true.
Proof. reflexivity. Qed.

Lemma is_consistent_iff args h b avg :
  get_running_average h = Some avg ->
  is_consistent args h b = true <->
  (Qabs (b - avg) <= inject_Z (consistency_tolerance args))%Q.
Proof.
  intros E. unfold is_consistent. rewrite E. apply Qle_bool_iff.
Qed.

Lemma is_consistent_false_iff args h b avg :
  get_running_average h = Some avg ->
  is_consistent args h b = false <->
  (inject_Z (consistency_tolerance args) < Qabs (b - avg))%Q.
Proof.
  intros E. rewrite <- Bool.not_true_iff_false, (is_consistent_iff _ _ _ _ E).
  split; intros H.
  - now apply Qnot_le_lt.
  - now apply Qlt_not_le.
Qed.

(** ** Actuator adjustment *)

Lemma calculate_led_adjustment_within args b :
  (Qabs (deviation args b) <= inject_Z (brightness_tolerance args))%Q ->
  calculate_led_adjustment args b = 0.
Proof.
  intros H. unfold calculate_led_adjustment. fold (deviation args b).
  apply Qle_bool_iff in H. now rewrite H.
Qed.

Lemma calculate_led_adjustment_beyond args b :
  ~ (Qabs (deviation args b) <= inject_Z (brightness_tolerance args))%Q ->
  calculate_led_adjustment args b
  = clamp (-20) 20 (Py.int (deviation args b / 8)).
Proof.
  intros H. unfold calculate_led_adjustment. fold (deviation args b).
  destruct (Qle_bool _ _) eqn:E.
  - apply Qle_bool_iff in E. contradiction.
  - cbv zeta. apply py_clamp_spec.
Qed.

Lemma calculate_led_adjustment_range args b :
  -20 <= calculate_led_adjustment args b <= 20.
Proof.
  unfold calculate_led_adjustment. destruct (Qle_bool _ _); [lia |].
  cbv zeta. rewrite py_clamp_spec. apply clamp_range. lia.
Qed.

Lemma clamp_abs_20 x : Z.abs (clamp (-20) 20 x) = Z.min 20 (Z.abs x).
Proof. unfold clamp. lia. Qed.

Lemma eighth_nonneg q : (0 <= q)%Q -> (0 <= q / 8)%Q.
Proof.
  intros H. unfold Qdiv. apply Qmult_le_0_compat; [exact H |].
  now compute.
Qed.

Lemma eighth_nonpos q : (q <= 0)%Q -> (q / 8 <= 0)%Q.
Proof.
  intros H. assert (E : (0 <= (- q) / 8)%Q).
  { apply eighth_nonneg. lra. }
  assert (E' : ((- q) / 8 == - (q / 8))%Q) by (field).
  rewrite E' in E. lra.
Qed.

Lemma eighth_abs q : (Qabs (q / 8) == Qabs q / 8)%Q.
Proof.
  unfold Qdiv. rewrite Qabs_Qmult. apply Qmult_comp; [reflexivity |].
  now compute.
Qed.

Lemma adjusted_led_spec args led b :
  adjusted_led args led b
  = if calculate_led_adjustment args b =? 0 then led
    else clamp 0 255 (led + calculate_led_adjustment args b).
Proof.
  unfold adjusted_led. cbv zeta.
  destruct (calculate_led_adjustment args b =? 0); cbn [negb];
    [reflexivity | apply py_clamp_spec].
Qed.

(** ** Reasoning about methods *)

Section PostRules.

Context {A B : Type}.

Lemma post_ret (a : A) s Qok Qex :
  Qok a s [] -> post (ret a) s Qok Qex.
Proof. exact (fun H => H). Qed.

Lemma post_bind (m : M A) (f : A -> M B) s Qok Qex :
  post m s
       (fun a s1 e1 =>
          post (f a) s1 (fun b s2 e2 => Qok b s2 (e1 ++ e2))
               (fun x s2 e2 => Qex x s2 (e1 ++ e2)))
       Qex ->
  post (bind m f) s Qok Qex.
Proof.
  unfold post, bind. destruct (m s) as [a s1 e1 | x s1 e1 |]; auto.
  destruct (f a s1); auto.
Qed.

Lemma post_conseq (m : M A) s (Qok Qok' : A -> State -> list Event -> Prop)
      (Qex Qex' : Exn -> State -> list Event -> Prop) :
  post m s Qok Qex ->
  (forall a s' evs, Qok a s' evs -> Qok' a s' evs) ->
  (forall x s' evs, Qex x s' evs -> Qex' x s' evs) ->
  post m s Qok' Qex'.
Proof.
  unfold post. destruct (m s); auto.
Qed.

Lemma post_gets (f : State -> A) s Qok Qex :
  Qok (f s) s [] -> post (gets f) s Qok Qex.
Proof. exact (fun H => H). Qed.

(** What [post] says of a run that is known. *)
Lemma post_ok (m : M A) s Qok Qex a s' evs :
  post m s Qok Qex -> m s = Ok a s' evs -> Qok a s' evs.
Proof. unfold post. intros H E. now rewrite E in H. Qed.

Lemma post_raise (m : M A) s Qok Qex x s' evs :
  post m s Qok Qex -> m s = Raise x s' evs -> Qex x s' evs.
Proof. unfold post. intros H E. now rewrite E in H. Qed.

(** A method that cannot raise returns. *)
Lemma post_returns (m : M A) s Qok :
  post m s Qok (fun _ _ _ => False) ->
  exists a s' evs, m s = Ok a s' evs /\ Qok a s' evs.
Proof.
  unfold post. destruct (m s) as [a s' evs | |]; try contradiction.
  intros H. now exists a, s', evs.
Qed.

End PostRules.

Lemma post_modify (f : State -> State) s Qok Qex :
  Qok tt (f s) [] -> post (modify f) s Qok Qex.
Proof. exact (fun H => H). Qed.

Lemma post_emit (e : Event) s Qok Qex :
  Qok tt s [e] -> post (emit e) s Qok Qex.
Proof. exact (fun H => H). Qed.

Lemma post_log lvl msg s Qok Qex :
  Qok tt s [Log lvl msg] -> post (log lvl msg) s Qok Qex.
Proof. exact (fun H => H). Qed.

Lemma post_when (c : bool) (body : M unit) s Qok Qex :
  (c = true -> post body s Qok Qex) ->
  (c = false -> Qok tt s []) ->
  post (when c body) s Qok Qex.
Proof. destruct c; cbn; intros H1 H2; [apply H1 | apply H2]; reflexivity. Qed.

(** ** Reading traces *)

Lemma writes_app e1 e2 : writes (e1 ++ e2) = writes e1 ++ writes e2.
Proof. apply filter_app. Qed.

Lemma probes_app e1 e2 : probes (e1 ++ e2) = probes e1 ++ probes e2.
Proof. apply filter_app. Qed.

Lemma captures_app e1 e2 : captures (e1 ++ e2) = captures e1 ++ captures e2.
Proof. apply filter_app. Qed.

Lemma cycle_numbers_app e1 e2 :
  cycle_numbers (e1 ++ e2) = cycle_numbers e1 ++ cycle_numbers e2.
Proof. apply flat_map_app. Qed.

Lemma sleeps_app e1 e2 : sleeps (e1 ++ e2) = sleeps e1 ++ sleeps e2.
Proof. apply flat_map_app. Qed.

Lemma traffic_app e1 e2 :
  forallb camera_traffic (e1 ++ e2)
  = forallb camera_traffic e1 && forallb camera_traffic e2.
Proof. apply forallb_app. Qed.

Lemma traffic_no_writes evs :
  forallb camera_traffic evs = true -> writes evs = [].
Proof.
  induction evs as [| e evs IH]; [reflexivity |].
  cbn [forallb]. intros H. apply andb_prop in H. destruct H as [He H].
  unfold writes. cbn [filter]. fold (writes evs). rewrite (IH H).
  destruct e; try discriminate He; reflexivity.
Qed.

Lemma traffic_no_probes evs :
  forallb camera_traffic evs = true -> probes evs = [].
Proof.
  induction evs as [| e evs IH]; [reflexivity |].
  cbn [forallb]. intros H. apply andb_prop in H. destruct H as [He H].
  unfold probes. cbn [filter]. fold (probes evs). rewrite (IH H).
  destruct e; try discriminate He; reflexivity.
Qed.

Lemma traffic_no_cycle_numbers evs :
  forallb camera_traffic evs = true -> cycle_numbers evs = [].
Proof.
  induction evs as [| e evs IH]; [reflexivity |].
  cbn [forallb]. intros H. apply andb_prop in H. destruct H as [He H].
  unfold cycle_numbers. cbn [flat_map]. fold (cycle_numbers evs). rewrite (IH H).
  destruct e as [| | | | | | | lvl msg]; try reflexivity.
  destruct msg; try discriminate He; reflexivity.
Qed.

Lemma count_from_S z n : count_from z (S n) = z :: count_from (z + 1) n.
Proof.
  unfold count_from. cbn [seq map]. f_equal; [lia |].
  rewrite <- seq_shift, map_map. apply map_ext. intros i. lia.
Qed.

Lemma count_from_snoc z n :
  count_from z (S n) = count_from z n ++ [z + Z.of_nat n].
Proof.
  unfold count_from. rewrite seq_S, map_app. reflexivity.
Qed.

Lemma count_from_In z n x : In x (count_from z n) <-> z <= x < z + Z.of_nat n.
Proof.
  unfold count_from. rewrite in_map_iff. split.
  - intros (i & <- & Hi). apply in_seq in Hi. lia.
  - intros H. exists (Z.to_nat (x - z)). split; [lia |]. apply in_seq. lia.
Qed.

Lemma count_from_NoDup z n : NoDup (count_from z n).
Proof.
  revert z. induction n as [| n IH]; intros z.
  - constructor.
  - rewrite count_from_S. constructor; [| apply IH].
    rewrite count_from_In. lia.
Qed.

(** Camera traffic is closed under concatenation: this settles such goals
    from the hypotheses on the pieces. *)
Ltac traffic :=
  repeat first
    [ progress cbn [app forallb andb camera_traffic]
    | rewrite traffic_app
    | match goal with
      | H : forallb camera_traffic _ = true |- _ => rewrite H
      end ];
  try reflexivity.

(** Reads a trace made of known events and of pieces whose reading is among
    the hypotheses. *)
Ltac trace :=
  unfold writes, probes, cycle_numbers, sleeps, captures in *;
  repeat first
    [ progress cbn [app filter flat_map is_write is_probe is_capture
                    cycle_number sleep_of]
    | match goal with
      | H : filter _ _ = _ |- _ => rewrite H
      | H : flat_map _ _ = _ |- _ => rewrite H
      end
    | rewrite filter_app
    | rewrite flat_map_app ];
  try reflexivity.

(** The same for housekeeping effects. *)
Ltac housekept :=
  repeat first
    [ match goal with
      | H : forallb housekeeping _ = true |- _ => rewrite H
      end
    | rewrite forallb_app
    | progress cbn [app forallb andb housekeeping] ];
  try reflexivity.

(** ** The methods, one by one *)

Section ControllerFacts.

Variable args : Args.
Variable env : Env.

Lemma post_sleep d s Qok Qex :
  (~ (0 <= d)%Q -> Qex ValueError s []) ->
  ((0 <= d)%Q -> interrupted env (n_sleep s) = true ->
   Qex KeyboardInterrupt s []) ->
  ((0 <= d)%Q -> interrupted env (n_sleep s) = false ->
   Qok tt (after_sleep d s) [Sleep d]) ->
  post (sleep env d) s Qok Qex.
Proof.
  intros Hneg Hint Hok. unfold post, sleep.
  destruct (Qle_bool 0 d) eqn:E; cbn [negb].
  - apply Qle_bool_iff in E.
    destruct (interrupted env (n_sleep s)) eqn:I; auto.
  - apply Hneg. intros H. apply Qle_bool_iff in H. congruence.
Qed.

(** [set_control] never raises: whatever the device answers, it logs one
    line and returns. *)
Lemma set_control_run var val s :
  exists ok lvl msg,
    set_control env var val s
    = Ok ok (after_control (control_latency env (n_control s)) s)
         [GetControl var val; Log lvl msg]
    /\ camera_traffic (Log lvl msg) = true.
Proof.
  unfold set_control, bind, get_control.
  destruct (control_reply env (n_control s)) as [code | e].
  - destruct (code =? 200); cbn; eauto.
  - cbn; eauto.
Qed.

Lemma post_set_control var val s (Qok : bool -> State -> list Event -> Prop) Qex :
  (forall ok evs,
      forallb camera_traffic evs = true ->
      Qok ok (after_control (control_latency env (n_control s)) s) evs) ->
  post (set_control env var val) s Qok Qex.
Proof.
  intros H. destruct (set_control_run var val s) as (ok & lvl & msg & E & T).
  unfold post. rewrite E. apply H. cbn [forallb]. rewrite T. reflexivity.
Qed.

Lemma capture_image_run s :
  capture_image env s
  = Ok (decode (capture_reply env (n_capture s)))
       (after_capture (capture_latency env (n_capture s)) s)
       [GetCapture].
Proof.
  unfold capture_image, bind, get_capture, decode.
  destruct (capture_reply env (n_capture s)) as [code content | e].
  - destruct (code =? 200); [destruct content |]; reflexivity.
  - reflexivity.
Qed.

Lemma post_capture_image s Qok Qex :
  Qok (decode (capture_reply env (n_capture s)))
      (after_capture (capture_latency env (n_capture s)) s)
      [GetCapture] ->
  post (capture_image env) s Qok Qex.
Proof. unfold post. now rewrite capture_image_run. Qed.

Lemma save_image_run image b led s :
  save_image args image b led s
  = Ok (path_join (output args) (generate_filename args (frame_number s)))
       s
       (Mkdir (output args)
        :: SaveJpeg (path_join (output args)
                               (generate_filename args (frame_number s)))
                    image
        :: if save_metadata args
           then [DumpJson
                   (path_join (output args)
                              (metadata_filename args (frame_number s)))
                   {| meta_frame := frame_number s;
                      meta_timestamp := clock s;
                      meta_brightness := b;
                      meta_led_intensity := led;
                      meta_running_avg :=
                        get_running_average (brightness_history s) |}]
           else []).
Proof.
  unfold save_image. destruct (save_metadata args); reflexivity.
Qed.

Lemma adjust_led_run b s :
  exists evs,
    adjust_led args b s
    = Ok tt (set_current_led (adjusted_led args (current_led s) b) s) evs
    /\ writes evs = [] /\ probes evs = [] /\ cycle_numbers evs = []
    /\ sleeps evs = [] /\ captures evs = [].
Proof.
  destruct s. unfold adjust_led, adjusted_led. cbv zeta.
  destruct (negb (calculate_led_adjustment args b =? 0)); cbn.
  - eexists. split; [reflexivity |]. repeat split.
  - exists []. repeat split.
Qed.

(** *** Steps of the retry loop, by what they leave alone *)

Lemma not_quiet k : interrupted env k = true -> ~ quiet env.
Proof. intros I Hq. rewrite Hq in I. discriminate. Qed.

Lemma self_of_fields s s' :
  self_of s' = self_of s ->
  current_led s' = current_led s /\
  brightness_history s' = brightness_history s /\
  frame_number s' = frame_number s /\
  captured_count s' = captured_count s.
Proof. unfold self_of. intros H. injection H. auto. Qed.

Lemma step_set_control var val s (Qok : bool -> State -> list Event -> Prop) Qex :
  (forall ok s' evs,
      self_of s' = self_of s -> n_capture s' = n_capture s ->
      forallb camera_traffic evs = true -> Qok ok s' evs) ->
  post (set_control env var val) s Qok Qex.
Proof. intros H. apply post_set_control. intros ok evs T. now apply H. Qed.

Lemma step_sleep d s (Qok : unit -> State -> list Event -> Prop)
      (Qex : Exn -> State -> list Event -> Prop) :
  Qle_bool 0 d = true ->
  (~ quiet env -> Qex KeyboardInterrupt s []) ->
  (forall s', self_of s' = self_of s -> n_capture s' = n_capture s ->
              Qok tt s' [Sleep d]) ->
  post (sleep env d) s Qok Qex.
Proof.
  intros Hd Hint Hok. apply Qle_bool_iff in Hd.
  apply post_sleep.
  - intros H. contradiction.
  - intros _ I. apply Hint. now apply not_quiet in I.
  - intros _ _. now apply Hok.
Qed.

Lemma step_capture_image s (Qok : option Image * string -> State -> list Event -> Prop) Qex :
  (forall s', self_of s' = self_of s -> n_capture s' = S (n_capture s) ->
              Qok (decode (capture_reply env (n_capture s))) s' [GetCapture]) ->
  post (capture_image env) s Qok Qex.
Proof. intros H. apply post_capture_image. now apply H. Qed.

Lemma step_led_off s (Qok : unit -> State -> list Event -> Prop) Qex :
  (forall s' evs,
      self_of s' = self_of s -> n_capture s' = n_capture s ->
      forallb camera_traffic evs = true -> Qok tt s' evs) ->
  post (when (negb (led_always_on args))
             (set_control env "led_intensity" 0 ;; ret tt)) s Qok Qex.
Proof.
  intros H. apply post_when.
  - intros _. apply post_bind, step_set_control. intros ok s' evs Hs Hn T.
    apply post_ret. rewrite app_nil_r. now apply H.
  - intros _. now apply H.
Qed.

(** A failed attempt in front of a run of the loop. *)
Lemma attempts_ok_cons s s1 n r s' evs1 evs :
  self_of s1 = self_of s -> n_capture s1 = S (n_capture s) ->
  attempt_fails args env (brightness_history s) (n_capture s) = true ->
  (forallb camera_traffic evs1 = true -> forallb camera_traffic evs = true) ->
  attempts_ok args env s1 n r s' evs1 ->
  attempts_ok args env s (S n) r s' evs.
Proof.
  intros Hs Hn Hfail T (Hs' & T1 & Hr).
  destruct (self_of_fields _ _ Hs) as (Hled & Hhist & _ & _).
  split; [congruence |]. split; [auto |].
  destruct r as [[[image |] b] led].
  - destruct Hr as (Hb & Hc & Hl & k & Hk & Hk').
    rewrite Hhist in Hc, Hk'. rewrite Hn in Hk'.
    repeat split; auto; [congruence |]. exists (S k). split; [lia |].
    now replace (n_capture s + S k)%nat with (S (n_capture s) + k)%nat by lia.
  - destruct Hr as (Hb & Hl & Hall). repeat split; auto; [congruence |].
    intros [| k] Hk.
    + now rewrite Nat.add_0_r.
    + replace (n_capture s + S k)%nat with (S (n_capture s) + k)%nat by lia.
      rewrite <- Hhist, <- Hn. apply Hall. lia.
Qed.

Lemma interrupted_in_traffic_cons s s1 x s' evs1 evs :
  self_of s1 = self_of s ->
  (forallb camera_traffic evs1 = true -> forallb camera_traffic evs = true) ->
  interrupted_in_traffic env s1 x s' evs1 ->
  interrupted_in_traffic env s x s' evs.
Proof.
  intros Hs T (Hx & Hq & Hs' & T1).
  repeat split; auto. congruence.
Qed.

Lemma capture_attempts_post attempts s :
  post (capture_attempts args env attempts) s
       (attempts_ok args env s (List.length attempts))
       (interrupted_in_traffic env s).
Proof.
  revert s. induction attempts as [| attempt rest IH]; intros s.
  - cbn [capture_attempts]. apply post_bind, post_gets, post_ret.
    repeat split. intros k Hk. cbn in Hk. lia.
  - cbn [capture_attempts List.length].
    apply post_bind, post_gets.
    apply post_bind, step_set_control. intros ok1 s1 e1 S1 N1 T1.
    apply post_bind, step_sleep; [reflexivity | |].
    { intros Hq. repeat split; auto. traffic. }
    intros s2 S2 N2.
    apply post_bind, step_capture_image. intros s3 S3 N3.
    apply post_bind, step_led_off. intros s4 e4 S4 N4 T4.
    assert (Hs4 : self_of s4 = self_of s) by congruence.
    assert (Hn4 : n_capture s4 = S (n_capture s)) by congruence.
    destruct (self_of_fields _ _ Hs4) as (Hled & Hhist & _ & _).
    rewrite N2, N1.
    destruct (fst (decode (capture_reply env (n_capture s)))) as [image |] eqn:D.
    + apply post_bind, post_gets. rewrite Hhist.
      destruct (is_consistent args (brightness_history s)
                              (calculate_brightness image)) eqn:C; cbn [negb].
      * apply post_bind, post_gets, post_ret. rewrite Hled.
        split; [exact Hs4 |]. split; [traffic |].
        repeat split; auto. exists 0%nat. split; [lia |].
        unfold attempt_fails. rewrite Nat.add_0_r, D, C. reflexivity.
      * apply post_bind, post_log.
        apply post_bind, step_sleep; [reflexivity | |].
        { intros Hq. repeat split; auto. traffic. }
        intros s5 S5 N5.
        eapply post_conseq; [apply IH | |].
        -- intros r s' evs. apply attempts_ok_cons; try congruence.
           ++ unfold attempt_fails. rewrite D, C. reflexivity.
           ++ intros T. traffic.
        -- intros x s' evs. apply interrupted_in_traffic_cons; try congruence.
           intros T. traffic.
    + apply post_bind, post_log.
      apply post_bind, step_sleep; [reflexivity | |].
      { intros Hq. repeat split; auto. traffic. }
      intros s5 S5 N5.
      eapply post_conseq; [apply IH | |].
      * intros r s' evs. apply attempts_ok_cons; try congruence.
        -- unfold attempt_fails. rewrite D. reflexivity.
        -- intros T. traffic.
      * intros x s' evs. apply interrupted_in_traffic_cons; try congruence.
        intros T. traffic.
Qed.

Lemma capture_with_adaptive_led_post s :
  post (capture_with_adaptive_led args env) s
       (attempts_ok args env s (Z.to_nat (max_retries args)))
       (interrupted_in_traffic env s).
Proof.
  unfold capture_with_adaptive_led.
  replace (Z.to_nat (max_retries args))
    with (List.length (Py.range (max_retries args))).
  - apply capture_attempts_post.
  - unfold Py.range. now rewrite length_map, length_seq.
Qed.

(** *** The wait at the end of a cycle *)

Lemma post_run {A} (m : M A) s a s' evs (Qok : A -> State -> list Event -> Prop) Qex :
  m s = Ok a s' evs -> Qok a s' evs -> post m s Qok Qex.
Proof. unfold post. intros E H. now rewrite E. Qed.

Lemma wait_for_next_post cycle_start end_frame s :
  post (wait_for_next args env cycle_start end_frame) s
       (fun _ s' evs => wait_ok args cycle_start end_frame s s' evs)
       (fun x s' evs => x = KeyboardInterrupt /\ ~ quiet env /\ s' = s /\
                        exists w, evs = [Log LvlInfo (MsgNextCapture w)]).
Proof.
  unfold wait_for_next, wait_ok, time. cbv zeta.
  apply post_bind, post_gets.
  destruct (frame_number s <? end_frame); cbn [andb when].
  - apply post_bind, post_gets. cbn [app].
    set (w := Py.qmax 0 (inject_Z (interval args) - (clock s - cycle_start))).
    destruct (Qle_bool w 0) eqn:W; cbn [negb when].
    + apply post_ret. auto.
    + apply post_bind, post_log. apply post_sleep.
      * intros H. exfalso. apply H. apply py_qmax_zero.
      * intros _ I. cbn [app]. apply not_quiet in I. eauto.
      * intros _ _. cbn [app]. auto.
  - apply post_ret. auto.
Qed.

(** *** One frame cycle *)

Lemma save_image_post image b led s :
  post (save_image args image b led) s
       (fun path s' evs =>
          s' = s /\
          path = path_join (output args) (generate_filename args (frame_number s)) /\
          writes evs = frame_files args (frame_number s) image b led
                                   (brightness_history s) (clock s) /\
          probes evs = [] /\ cycle_numbers evs = [] /\ captures evs = [])
       (fun _ _ _ => False).
Proof.
  eapply post_run; [apply save_image_run |].
  unfold frame_files. destruct (save_metadata args); repeat split.
Qed.

Lemma frame_cycle_post start_frame frames_to_capture end_frame s :
  post (frame_cycle args env start_frame frames_to_capture end_frame) s
       (cycle_ok args env s true) (cycle_raises args env s).
Proof.
  unfold frame_cycle, time.
  apply post_bind, post_gets.
  apply post_bind, post_gets.
  apply post_bind, post_log.
  apply post_bind.
  eapply post_conseq; [apply capture_with_adaptive_led_post | |].
  - intros [[[image |] b] led] s1 e1 (Hs1 & T1 & Hr).
    + (* an attempt was accepted *)
      destruct Hr as (Hb & Hc & Hl & Hk).
      destruct (self_of_fields _ _ Hs1) as (Hled & Hhist & Hn & Hcount).
      pose proof (traffic_no_writes _ T1) as W1.
      pose proof (traffic_no_probes _ T1) as P1.
      pose proof (traffic_no_cycle_numbers _ T1) as C1.
      apply post_bind.
      eapply post_conseq; [apply save_image_post | | contradiction].
      intros path s1' ef (-> & -> & Wf & Pf & Cf & _).
      apply post_bind, post_log.
      apply post_bind, post_modify.
      apply post_bind.
      match goal with |- post _ ?st _ _ =>
        destruct (adjust_led_run b st) as (ea & Ea & Wa & Pa & Ca & _)
      end.
      eapply post_run; [exact Ea |].
      apply post_bind, post_modify.
      apply post_bind, post_modify.
      apply post_bind.
      eapply post_conseq; [apply wait_for_next_post | |].
      * intros [] s' ew (Hs' & Hw). apply post_ret.
        destruct (self_of_fields _ _ Hs') as (Hled' & Hhist' & Hn' & Hcount').
        cbn in Hled', Hhist', Hn', Hcount'.
        assert (Hew : writes ew = [] /\ probes ew = [] /\ cycle_numbers ew = []).
        { match type of Hw with (if ?c then _ else _) => destruct c end;
            destruct Hw as [-> _]; repeat split. }
        destruct Hew as (Ww & Pw & Cw).
        rewrite Hhist, Hled, Hn in *.
        split; [lia |]. split; [trace |]. split; [trace |].
        exists image, (clock s1). cbv zeta. subst b led.
        repeat split; auto; try lia. trace. apply app_nil_r.
      * intros x s' ew (Hx & Hq & -> & w & ->).
        rewrite ?Hhist, ?Hled, ?Hn in *.
        split; [left; auto |]. split; [trace |]. split; [trace |].
        right. exists Completed.
        split; [cbn; lia |]. split; [trace |]. split; [trace |].
        exists image, (clock s1). cbv zeta. subst b led.
        repeat split; auto;
          try (cbn; rewrite ?Hhist, ?Hled, ?Hcount; solve [reflexivity | lia]).
        trace. apply app_nil_r.
    + (* every attempt failed *)
      destruct Hr as (Hb & Hl & Hall).
      destruct (self_of_fields _ _ Hs1) as (Hled & Hhist & Hn & Hcount).
      pose proof (traffic_no_writes _ T1) as W1.
      pose proof (traffic_no_probes _ T1) as P1.
      pose proof (traffic_no_cycle_numbers _ T1) as C1.
      apply post_bind, post_log.
      apply post_bind, post_modify.
      apply post_bind, post_sleep.
      * intros Hneg. split; [| split; [trace | split; [trace |]]].
        { right. split; [reflexivity |].
          destruct (Z.ltb_spec (interval args) 0) as [H | H]; [exact H |].
          exfalso. apply Hneg. unfold Qle. cbn. lia. }
        right. exists Skipped.
        split; [cbn; lia |]. split; [trace |]. split; [trace |].
        cbn. repeat split; auto; [trace |].
        eexists (_ :: e1). reflexivity.
      * intros _ I. apply not_quiet in I.
        split; [left; auto |]. split; [trace |]. split; [trace |].
        right. exists Skipped.
        split; [cbn; lia |]. split; [trace |]. split; [trace |].
        cbn. repeat split; auto; [trace |].
        eexists (_ :: e1). reflexivity.
      * intros _ _. apply post_ret.
        split; [cbn; lia |]. split; [trace |]. split; [trace |].
        cbn. repeat split; auto; [trace |].
        eexists (_ :: e1). reflexivity.
  - intros x s' evs (Hx & Hq & Hs' & T).
    pose proof (traffic_no_probes _ T) as P1.
    pose proof (traffic_no_cycle_numbers _ T) as C1.
    pose proof (traffic_no_writes _ T) as W1.
    split; [left; auto |]. split; [trace |]. split; [trace |].
    left. split; [exact Hs' |].
    do 3 eexists. split; [reflexivity | exact T].
Qed.

(** *** The loop *)

Lemma housekeeping_app e1 e2 :
  forallb housekeeping (e1 ++ e2)
  = forallb housekeeping e1 && forallb housekeeping e2.
Proof. apply forallb_app. Qed.

Lemma traffic_housekeeping evs :
  forallb camera_traffic evs = true ->
  forallb housekeeping (filter (fun e => negb (is_capture e)) evs) = true.
Proof.
  induction evs as [| e evs IH]; [reflexivity |].
  cbn [forallb filter]. intros H. apply andb_prop in H. destruct H as [He H].
  destruct e as [| | | | | | | lvl msg]; cbn; try discriminate He; auto.
  destruct msg; try discriminate He; cbn; auto.
Qed.

Lemma housekeeping_reading evs :
  forallb housekeeping evs = true ->
  writes evs = [] /\ probes evs = [] /\ captures evs = [] /\ cycle_numbers evs = [].
Proof.
  induction evs as [| e evs IH]; [repeat split |].
  cbn [forallb]. intros H. apply andb_prop in H. destruct H as [He H].
  destruct (IH H) as (W & P & C & N).
  unfold writes, probes, captures, cycle_numbers in *.
  cbn [filter flat_map]. rewrite W, P, C, N.
  destruct e as [| | | | | | | lvl msg]; try discriminate He; repeat split.
  all: destruct msg; try discriminate He; reflexivity.
Qed.

Lemma run_loop_post fuel start_frame frames_to_capture end_frame s :
  (Z.to_nat (end_frame - frame_number s) < fuel)%nat ->
  post (run_loop args env fuel start_frame frames_to_capture end_frame) s
       (fun _ => loop_ok args env end_frame s)
       (loop_raises args env end_frame s).
Proof.
  revert s. induction fuel as [| fuel IH]; intros s Hfuel; [lia |].
  cbn [run_loop]. apply post_bind, post_gets.
  destruct (Z.ltb_spec (frame_number s) end_frame) as [Hlt | Hge].
  - apply post_bind.
    eapply post_conseq; [apply frame_cycle_post | |].
    + intros o s1 e1 Hcycle.
      pose proof Hcycle as (Hn1 & C1 & P1 & _).
      eapply post_conseq; [apply IH; lia | |].
      * intros [] s' e2 (Hn' & C2 & P2 & Hlast).
        split; [lia |]. split; [| split; [trace |]].
        -- cbn [app]. rewrite cycle_numbers_app, C1, C2, Hn1.
           replace (Z.to_nat (end_frame - frame_number s))
             with (S (Z.to_nat (end_frame - (frame_number s + 1)))) by lia.
           now rewrite count_from_S.
        -- right. destruct Hlast as [(-> & -> & _) | (s0 & o' & evs0 & evs1 & -> & H)].
           ++ exists s, o, [], e1. now rewrite app_nil_r.
           ++ exists s0, o', (e1 ++ evs0), evs1. cbn [app].
              now rewrite app_assoc.
      * intros x s' e2 (Hx & P2 & k & s0 & evs0 & evs1 & C2 & Hk & -> & Hn0 & H).
        split; [exact Hx |]. split; [trace |].
        exists (S k), s0, (e1 ++ evs0), evs1.
        split; [| split; [lia | split; [cbn [app]; now rewrite app_assoc |]]].
        -- cbn [app]. rewrite cycle_numbers_app, C1, C2, Hn1.
           now rewrite (count_from_S _ (S k)).
        -- split; [lia | exact H].
    + intros x s' e1 (Hx & C1 & P1 & H).
      split; [exact Hx |]. split; [trace |].
      exists 0%nat, s, [], e1. cbn [app].
      split; [rewrite C1; unfold count_from; cbn; f_equal; lia |].
      split; [lia |]. split; [reflexivity |].
      split; [lia | exact H].
  - apply post_ret.
    split; [lia |]. split; [| split; [reflexivity |]].
    + replace (Z.to_nat (end_frame - frame_number s)) with 0%nat by lia.
      reflexivity.
    + left. auto.
Qed.

(** *** Health probe and set-up *)

Lemma test_connection_run s :
  exists lvl msg,
    test_connection args env s
    = Ok (healthy env) (after_status (status_latency env) s)
         [Log LvlInfo (MsgTesting (host args)); GetStatus; Log lvl msg]
    /\ forallb housekeeping [Log lvl msg] = true.
Proof.
  unfold test_connection, healthy, bind, log, emit, get_status.
  destruct (status_reply env) as [code | e].
  - destruct (code =? 200); cbn; eauto.
  - cbn; eauto.
Qed.

Lemma step_set_control_housekeeping var val s
      (Qok : bool -> State -> list Event -> Prop) Qex :
  (forall ok s' evs,
      self_of s' = self_of s -> forallb housekeeping evs = true ->
      Qok ok s' evs) ->
  post (set_control env var val) s Qok Qex.
Proof.
  intros H. destruct (set_control_run var val s) as (ok & lvl & msg & E & T).
  eapply post_run; [exact E |]. apply H; [reflexivity |].
  cbn [forallb housekeeping andb].
  destruct msg; try discriminate T; reflexivity.
Qed.

Lemma apply_settings_post (l : list (string * Z)) s :
  post (for_each l (fun '(var, val) =>
                      set_control env var val ;; sleep env (5 # 100))) s
       (fun _ s' evs => self_of s' = self_of s /\ forallb housekeeping evs = true)
       (fun x s' evs => x = KeyboardInterrupt /\ ~ quiet env /\
                        self_of s' = self_of s /\
                        forallb housekeeping evs = true).
Proof.
  revert s. induction l as [| [var val] l IH]; intros s.
  - apply post_ret. auto.
  - cbn [for_each]. apply post_bind, post_bind.
    apply step_set_control_housekeeping. intros ok s1 e1 S1 H1.
    apply step_sleep; [reflexivity | |].
    + intros Hq. repeat split; auto; housekept.
    + intros s2 S2 _.
      eapply post_conseq; [apply IH | |].
      * intros [] s' e (Hs & He). split; [congruence | housekept].
      * intros x s' e (Hx & Hq & Hs & He).
        repeat split; auto; try congruence; housekept.
Qed.

Lemma configure_camera_post s :
  post (configure_camera args env) s
       (fun _ s' evs => self_of s' = self_of s /\ forallb housekeeping evs = true)
       (fun x s' evs => x = KeyboardInterrupt /\ ~ quiet env /\
                        self_of s' = self_of s /\
                        forallb housekeeping evs = true).
Proof.
  unfold configure_camera.
  apply post_bind, post_log.
  apply post_bind.
  eapply post_conseq; [apply apply_settings_post | |].
  - intros [] s1 e1 (S1 & H1).
    apply post_bind, post_gets.
    apply post_bind, step_set_control_housekeeping. intros ok s2 e2 S2 H2.
    apply post_log. split; [congruence | housekept].
  - intros x s' e (Hx & Hq & Hs & He). repeat split; auto; housekept.
Qed.

(** *** Exceptions caught *)

Lemma post_try (body handler : M unit) s
      (Qok : unit -> State -> list Event -> Prop) Qex :
  post body s Qok
       (fun x s1 e1 =>
          match x with
          | KeyboardInterrupt =>
              post handler s1 (fun b s2 e2 => Qok b s2 (e1 ++ e2))
                   (fun y s2 e2 => Qex y s2 (e1 ++ e2))
          | _ => Qex x s1 e1
          end) ->
  post (try_except_KeyboardInterrupt body handler) s Qok Qex.
Proof.
  unfold post, try_except_KeyboardInterrupt.
  destruct (body s) as [a s1 e1 | x s1 e1 |]; auto.
  destruct x; auto. destruct (handler s1); auto.
Qed.

(** *** A run *)

Lemma run_post s :
  post (run args env) s (run_ok args env s) (run_raises args env s).
Proof.
  unfold run.
  destruct (test_connection_run s) as (lvl & msg & E & Hmsg).
  apply post_bind. eapply post_run; [exact E |].
  destruct (healthy env) eqn:Hh; cbn [negb].
  - apply post_bind.
    eapply post_conseq; [apply configure_camera_post | |].
    + intros [] s1 e1 (S1 & H1).
      destruct (self_of_fields _ _ S1) as (Hled & Hhist & Hn & Hcount).
      cbn in Hled, Hhist, Hn, Hcount.
      destruct (housekeeping_reading _ H1) as (W1 & P1 & _ & C1).
      apply post_bind, post_sleep.
      * intros H. exfalso. apply H. discriminate.
      * intros _ I. apply not_quiet in I.
        split; [exact Hh |]. split; [left; auto |]. split; [trace |].
        exists ([Log lvl msg] ++ e1), []. rewrite !app_nil_r.
        split; [reflexivity |]. split; [housekept |].
        left. repeat split. rewrite S1. reflexivity.
      * intros _ _.
        apply post_bind, post_log. apply post_bind, post_log.
        apply post_bind, post_log. apply post_bind, post_modify.
        apply post_bind, post_try.
        apply post_bind, post_gets.
        eapply post_conseq;
          [apply run_loop_post; unfold loop_fuel; lia | |].
        -- intros [] s2 el Hloop. pose proof Hloop as (_ & _ & Pl & _).
           apply post_bind, post_gets. apply post_bind, post_gets.
           apply post_bind, post_log. apply post_ret.
           split; [congruence |]. split; [trace |].
           eexists (set_captured_count 0 (after_sleep 1 s1)),
                   ([Log lvl msg] ++ e1 ++ [Sleep 1; _; _; _]), el, [].
           split; [cbn [app]; rewrite <- ?app_assoc; reflexivity |].
           split; [housekept |].
           cbn [current_led brightness_history frame_number captured_count
                set_captured_count after_sleep].
           repeat split; auto. left. split; [exact Hloop | reflexivity].
        -- intros [] s2 el Hloop.
           ++ pose proof Hloop as (_ & Pl & _).
              apply post_log.
              apply post_bind, post_gets. apply post_bind, post_gets.
              apply post_bind, post_log. apply post_ret.
              split; [congruence |]. split; [trace |].
              eexists (set_captured_count 0 (after_sleep 1 s1)),
                      ([Log lvl msg] ++ e1 ++ [Sleep 1; _; _; _]), el,
                      [Log LvlInfo MsgInterrupted].
              split; [cbn [app]; rewrite <- ?app_assoc; reflexivity |].
              split; [housekept |].
              cbn [current_led brightness_history frame_number captured_count
                   set_captured_count after_sleep].
              repeat split; auto. right. split; [exact Hloop | reflexivity].
           ++ pose proof Hloop as (Hx & Pl & _).
              split; [exact Hh |]. split; [exact Hx |]. split; [trace |].
              eexists ([Log lvl msg] ++ e1 ++ [Sleep 1; _; _; _]), el.
              split; [cbn [app]; rewrite <- ?app_assoc; reflexivity |].
              split; [housekept |].
              right. eexists. split; [| exact Hloop]. exact Hn.
           ++ destruct Hloop as ([[Hx _] | [Hx _]] & _); discriminate Hx.
           ++ destruct Hloop as ([[Hx _] | [Hx _]] & _); discriminate Hx.
    + intros x s' e (Hx & Hq & Hs & He).
      destruct (housekeeping_reading _ He) as (_ & P1 & _ & _).
      split; [exact Hh |]. split; [left; auto |]. split; [trace |].
      exists ([Log lvl msg] ++ e), []. rewrite !app_nil_r.
      split; [reflexivity |]. split; [housekept |].
      left. repeat split; auto.
  - apply post_bind, post_log. apply post_ret.
    split; [congruence |]. split; [reflexivity |].
    split; [reflexivity |]. do 2 eexists. split; [reflexivity | exact Hmsg].
Qed.

End ControllerFacts.

(** ** Formatting of sequence numbers *)

Lemma dec_aux_length fuel n acc k :
  0 <= n < 10 ^ Z.of_nat k -> (1 <= k)%nat ->
  (String.length (Py.dec_aux fuel n acc) <= k + String.length acc)%nat.
Proof.
  revert n acc k. induction fuel as [| fuel IH]; intros n acc k Hn Hk.
  - cbn. lia.
  - cbn [Py.dec_aux]. destruct (Z.ltb_spec n 10) as [Hlt | Hge].
    + cbn. lia.
    + destruct k as [| [| k]]; [lia | cbn in Hn; lia |].
      specialize (IH (n / 10) (String (Py.digit_char (n mod 10)) acc) (S k)).
      cbn [String.length] in IH.
      assert (H10 : 10 ^ Z.of_nat (S (S k)) = 10 * 10 ^ Z.of_nat (S k)).
      { rewrite (Nat2Z.inj_succ (S k)), Z.pow_succ_r by lia. reflexivity. }
      assert (0 <= n / 10 < 10 ^ Z.of_nat (S k)).
      { split; [apply Z.div_pos; lia |].
        apply Z.div_lt_upper_bound; lia. }
      specialize (IH ltac:(assumption) ltac:(lia)). lia.
Qed.

Lemma dec_aux_length_min fuel n acc :
  (String.length acc <= String.length (Py.dec_aux fuel n acc))%nat.
Proof.
  revert n acc. induction fuel as [| fuel IH]; intros n acc; cbn [Py.dec_aux].
  - lia.
  - destruct (n <? 10).
    + cbn. lia.
    + specialize (IH (n / 10) (String (Py.digit_char (n mod 10)) acc)).
      cbn [String.length] in IH. lia.
Qed.

Lemma dec_length n k :
  0 <= n < 10 ^ Z.of_nat k -> (1 <= k)%nat ->
  (1 <= String.length (Py.dec n) <= k)%nat.
Proof.
  intros Hn Hk. unfold Py.dec. split.
  - cbn [Py.dec_aux]. destruct (n <? 10); [cbn; lia |].
    pose proof (dec_aux_length_min (Z.to_nat (Z.log2 n)) (n / 10)
                  (String (Py.digit_char (n mod 10)) EmptyString)) as H.
    cbn [String.length] in H. lia.
  - pose proof (dec_aux_length (S (Z.to_nat (Z.log2 n))) n EmptyString k Hn Hk) as H.
    cbn [String.length] in H. lia.
Qed.

Lemma string_of_list_ascii_length l :
  String.length (string_of_list_ascii l) = List.length l.
Proof. induction l as [| c l IH]; cbn; congruence. Qed.

Lemma string_append_length (a b : string) :
  String.length (a ++ b)%string = (String.length a + String.length b)%nat.
Proof. induction a as [| c a IH]; cbn; congruence. Qed.

Lemma zfill_length w s :
  String.length (Py.zfill w s) = Nat.max w (String.length s).
Proof.
  unfold Py.zfill.
  rewrite string_append_length, string_of_list_ascii_length, repeat_length. lia.
Qed.

(** Sequence numbers 0..99999 are written on exactly five characters. *)
Lemma fmt05d_width n :
  0 <= n <= 99999 -> String.length (Py.fmt05d n) = 5%nat.
Proof.
  intros Hn. unfold Py.fmt05d.
  destruct (Z.ltb_spec n 0) as [H | H]; [lia |].
  rewrite zfill_length.
  assert (Hd : (1 <= String.length (Py.dec n) <= 5)%nat).
  { apply dec_length; [| lia]. change (10 ^ Z.of_nat 5) with 100000. lia. }
  lia.
Qed.

Lemma string_of_list_ascii_snoc l c (acc : string) :
  (string_of_list_ascii (l ++ [c]) ++ acc)%string
  = (string_of_list_ascii l ++ String c acc)%string.
Proof. induction l as [| a l IH]; cbn; [reflexivity | now rewrite IH]. Qed.

Lemma string_append_empty (a : string) : (a ++ EmptyString)%string = a.
Proof. induction a as [| c a IH]; cbn; congruence. Qed.

(** The value a string of decimal digits denotes. *)
Lemma dec_aux_value fuel n acc :
  0 <= n < 2 ^ Z.of_nat fuel -> (1 <= fuel)%nat ->
  exists digits,
    Py.dec_aux fuel n acc = (string_of_list_ascii (map Py.digit_char digits) ++ acc)%string
    /\ Forall (fun d => 0 <= d <= 9) digits
    /\ fold_left (fun v d => 10 * v + d) digits 0 = n
    /\ digits <> [].
Proof.
  revert n acc. induction fuel as [| fuel IH]; intros n acc Hn Hfuel; [lia |].
  cbn [Py.dec_aux]. destruct (Z.ltb_spec n 10) as [Hlt | Hge].
  - exists [n]. split; [| split; [| split]].
    + cbn. rewrite Z.mod_small by lia. reflexivity.
    + constructor; [lia | constructor].
    + cbn. lia.
    + discriminate.
  - assert (Hdiv : 0 <= n / 10 < 2 ^ Z.of_nat fuel).
    { split; [apply Z.div_pos; lia |].
      rewrite Nat2Z.inj_succ, Z.pow_succ_r in Hn by lia.
      apply Z.div_lt_upper_bound; lia. }
    assert (Hf : (1 <= fuel)%nat).
    { destruct fuel; [cbn in Hn; lia | lia]. }
    destruct (IH (n / 10) (String (Py.digit_char (n mod 10)) acc) Hdiv Hf)
      as (ds & E & Hds & Hv & Hne).
    exists (ds ++ [n mod 10]). rewrite E. repeat split.
    + rewrite map_app. cbn [map]. symmetry. apply string_of_list_ascii_snoc.
    + apply Forall_app. split; [exact Hds |].
      constructor; [| constructor]. pose proof (Z.mod_pos_bound n 10). lia.
    + rewrite fold_left_app. cbn [fold_left]. rewrite Hv.
      pose proof (Z.div_mod n 10). lia.
    + intros H. apply app_eq_nil in H. destruct H as [_ H]. discriminate.
Qed.

(** [dec] writes the digits of its argument: read back, they give it. *)
Lemma dec_value n :
  0 <= n ->
  exists digits,
    Py.dec n = string_of_list_ascii (map Py.digit_char digits)
    /\ Forall (fun d => 0 <= d <= 9) digits
    /\ fold_left (fun v d => 10 * v + d) digits 0 = n.
Proof.
  intros Hn. unfold Py.dec.
  destruct (dec_aux_value (S (Z.to_nat (Z.log2 n))) n EmptyString)
    as (ds & E & Hds & Hv & _).
  - split; [exact Hn |].
    destruct (Z.eq_dec n 0) as [-> | Hnz]; [cbn; lia |].
    rewrite Nat2Z.inj_succ, Z2Nat.id by apply Z.log2_nonneg.
    apply Z.log2_spec. lia.
  - lia.
  - exists ds. rewrite E. repeat split; auto. apply string_append_empty.
Qed.

(** * The claims *)

(** ** C4: consistency check *)



(** ** C5: actuator adjustment *)

(** C5, as the code has it. For a sample of brightness [b], with
    [deviation = target_brightness - b]: the adjustment is 0 whenever
    [|deviation| <= brightness_tolerance] (inclusive); otherwise it is
    [deviation / 8] truncated toward zero and clamped to [-20, 20], so its
    magnitude is [min(20, floor(|deviation| / 8))] and its sign that of the
    deviation. The level is rewritten, to
    [clamp(current + adjustment, 0, 255)], only when the adjustment is not
    zero; with a zero adjustment it stays as it is. Hence the new level
    equals [clamp(current + adjustment, 0, 255)] and lies in [0, 255]
    whenever the adjustment is not zero or the current level lies in
    [0, 255]. *)
Theorem led_adjustment_guarded (args : Args) (led : Z) (b : Q) :
  let tolerance := inject_Z (brightness_tolerance args) in
  let adjustment := calculate_led_adjustment args b in
  let new_led := adjusted_led args led b in
  ((Qabs (deviation args b) <= tolerance)%Q -> adjustment = 0) /\
  (~ (Qabs (deviation args b) <= tolerance)%Q ->
   adjustment = clamp (-20) 20 (Py.int (deviation args b / 8)) /\
   Z.abs adjustment = Z.min 20 (Qfloor (Qabs (deviation args b) / 8)) /\
   ((0 <= deviation args b)%Q -> 0 <= adjustment) /\
   ((deviation args b <= 0)%Q -> adjustment <= 0)) /\
  (adjustment = 0 -> new_led = led) /\
  (adjustment <> 0 \/ 0 <= led <= 255 ->
   new_led = clamp 0 255 (led + adjustment) /\ 0 <= new_led <= 255).
Proof.
  cbv zeta. split; [apply calculate_led_adjustment_within |]. split; [| split].
  - intros Hout. rewrite (calculate_led_adjustment_beyond _ _ Hout).
    split; [reflexivity |]. split; [| split].
    + rewrite clamp_abs_20, py_int_abs. f_equal.
      apply Qfloor_comp, eighth_abs.
    + intros Hpos. pose proof (py_int_nonneg _ (eighth_nonneg _ Hpos)).
      unfold clamp. lia.
    + intros Hneg. pose proof (py_int_nonpos _ (eighth_nonpos _ Hneg)).
      unfold clamp. lia.
  - intros H0. rewrite adjusted_led_spec, H0. reflexivity.
  - intros H. rewrite adjusted_led_spec.
    destruct (Z.eqb_spec (calculate_led_adjustment args b) 0) as [E | E].
    + destruct H as [H | H]; [contradiction |].
      rewrite E, Z.add_0_r, clamp_id by exact H. split; [reflexivity | exact H].
    + split; [reflexivity | apply clamp_range; lia].
Qed.

(** The scenario of the specification: target 128, tolerance 30, sample 80
    gives a deviation of 48 and a step of 6, from level 50 to 56. A sample
    at the target leaves level 50 alone. *)
Lemma led_adjustment_guarded_witness :
  calculate_led_adjustment default_args 80 = 6 /\
  adjusted_led default_args 50 80 = 56 /\
  adjusted_led default_args 50 128 = 50.
Proof.
  pose proof (led_adjustment_guarded default_args 50 80) as H.
  cbv zeta in H. destruct H as (_ & Hout & _ & Hnew).
  assert (Hfar : ~ (Qabs (deviation default_args 80)
                    <= inject_Z (brightness_tolerance default_args))%Q).
  { intros H. vm_compute in H. apply H. reflexivity. }
  destruct (Hout Hfar) as (Hadj & _).
  assert (E : calculate_led_adjustment default_args 80 = 6).
  { rewrite Hadj. reflexivity. }
  split; [exact E |]. split.
  - destruct Hnew as [-> _]; [left; rewrite E; discriminate |].
    rewrite E. reflexivity.
  - pose proof (led_adjustment_guarded default_args 50 128) as H.
    cbv zeta in H. destruct H as (Hin & _ & Hkeep & _).
    apply Hkeep, Hin. vm_compute. discriminate.
Defined.

(** C5 as stated fails: the level left by an accepted sample is not always
    [clamp(current + adjustment, 0, 255)] nor always in [0, 255]. Started
    with [--led-initial 300] and shown a sample at the target brightness,
    the controller computes a zero adjustment and keeps level 300. *)
Lemma led_level_not_always_clamped :
  let args := args_with 1 20 300 in
  current_led (init args 0) = 300 /\
  calculate_led_adjustment args 128 = 0 /\
  adjusted_led args 300 128 = 300 /\
  adjusted_led args 300 128 <> clamp 0 255 (300 + calculate_led_adjustment args 128) /\
  ~ (0 <= adjusted_led args 300 128 <= 255) /\
  exists s' evs,
    run args (steady_camera 128) (init args 0) = Ok true s' evs /\
    current_led s' = 300.
Proof.
  cbv zeta. repeat split; try (vm_compute; congruence).
  - vm_compute. intros [_ H]. apply H. reflexivity.
  - do 2 eexists. split; vm_compute; reflexivity.
Qed.

(** ** C3: running average *)

Lemma update_brightness_history_last (h : list Q) (b : Q) :
  last (update_brightness_history h b) 0%Q = b.
Proof.
  unfold update_brightness_history.
  destruct (10 <? List.length (h ++ [b]))%nat eqn:E.
  - destruct h as [| x h]; [discriminate E |].
    cbn [app tl]. apply last_last.
  - apply last_last.
Qed.

Lemma cycle_ok_history_step args env s slept o s' evs :
  cycle_ok args env s slept o s' evs -> history_step args s o s'.
Proof.
  intros (_ & _ & _ & H). destruct o; cbn in *.
  - destruct H as (image & t & Hc & _ & Hh & Hl & _).
    exists image. cbv zeta. repeat split; auto.
    rewrite Hh. apply update_brightness_history_last.
  - now destruct H as (_ & Hh & _).
Qed.



(** ** C9: persistence *)

Lemma cycle_ok_files_written args env s slept o s' evs :
  cycle_ok args env s slept o s' evs -> files_written args s o evs.
Proof.
  intros (_ & _ & _ & H). destruct o; cbn in *.
  - destruct H as (image & t & _ & _ & _ & _ & _ & Hw). eauto.
  - now destruct H as (_ & _ & _ & Hw & _).
Qed.




(** ** C10: the running average recorded with a frame *)

(** C10. Let [prior] be the samples accepted before this cycle, so that the
    history is [accept_all [] prior]. If the cycle completes (with metadata
    saving on), the record it writes holds as running average the average
    of the history as it was before this frame's brightness was inserted:
    the mean of the window of (at most 10 of the latest) samples accepted
    strictly before this frame, and null ([None]) when none was. The
    frame's own brightness enters the history only afterwards. *)
Theorem recorded_average_precedes_insertion (args : Args) (env : Env)
        (prior : list Q) (s : State)
        (start_frame frames_to_capture end_frame : Z) :
  brightness_history s = accept_all [] prior ->
  save_metadata args = true ->
  post (frame_cycle args env start_frame frames_to_capture end_frame) s
       (fun o s' evs =>
          o = Completed ->
          exists image jpg json metadata,
            writes evs = [SaveJpeg jpg image; DumpJson json metadata] /\
            meta_frame metadata = frame_number s /\
            meta_brightness metadata = calculate_brightness image /\
            meta_running_avg metadata = get_running_average (last_n 10 prior) /\
            (prior = [] -> meta_running_avg metadata = None) /\
            (prior <> [] ->
             exists avg, meta_running_avg metadata = Some avg /\
                         (avg == mean (last_n 10 prior))%Q) /\
            brightness_history s'
            = accept_all [] (prior ++ [calculate_brightness image]))
       (fun _ _ _ => True).
Proof.
  intros Hprior Hmeta.
  eapply post_conseq; [apply frame_cycle_post | | auto].
  intros o s' evs (_ & _ & _ & H) ->.
  destruct H as (image & t & _ & _ & Hh & _ & _ & Hw).
  unfold frame_files in Hw. rewrite Hmeta in Hw.
  do 4 eexists. split; [exact Hw |]. cbn [meta_frame meta_brightness meta_running_avg].
  rewrite Hprior, accept_all_window.
  split; [reflexivity |]. split; [reflexivity |]. split; [reflexivity |].
  split; [intros ->; reflexivity |]. split.
  - intros Hne. apply get_running_average_mean. intros H.
    apply (f_equal (@List.length Q)) in H. rewrite last_n_length in H.
    destruct prior; [congruence | cbn in H; lia].
  - rewrite Hh, Hprior, !accept_all_window. apply update_last_n.
Qed.

(** The first frame of a run with the default arguments, in front of a
    steady scene of brightness 80: its record holds no running average, and
    the history it leaves is [80]. *)
Lemma recorded_average_precedes_insertion_witness :
  (exists s' evs,
      frame_cycle default_args (steady_camera 80) 0 2 2 (init default_args 0)
      = Ok Completed s' evs) /\
  post (frame_cycle default_args (steady_camera 80) 0 2 2) (init default_args 0)
       (fun o s' evs =>
          o = Completed ->
          exists image jpg json metadata,
            writes evs = [SaveJpeg jpg image; DumpJson json metadata] /\
            meta_running_avg metadata = None /\
            brightness_history s' = accept_all [] [calculate_brightness image])
       (fun _ _ _ => True).
Proof.
  split; [do 2 eexists; vm_compute; reflexivity |].
  eapply post_conseq;
    [ apply (recorded_average_precedes_insertion
               default_args (steady_camera 80) [] (init default_args 0) 0 2 2);
      reflexivity
    | | auto ].
  intros o s' evs H Ho.
  destruct (H Ho) as (image & jpg & json & m & Hw & _ & _ & _ & Hnone & _ & Hh).
  exists image, jpg, json, m. repeat split; auto.
Defined.

(** ** C6: skipped frames *)

Lemma never_raised args env x :
  quiet env -> 0 <= interval args -> ~ raised_because args env x.
Proof. intros Hq Hi [[_ H] | [_ H]]; [contradiction | lia]. Qed.

(** Left alone and given a sane cadence, a cycle resolves. *)
Lemma frame_cycle_returns args env start_frame frames_to_capture end_frame s :
  quiet env -> 0 <= interval args ->
  exists o s' evs,
    frame_cycle args env start_frame frames_to_capture end_frame s = Ok o s' evs
    /\ cycle_ok args env s true o s' evs.
Proof.
  intros Hq Hi. apply post_returns.
  eapply post_conseq; [apply frame_cycle_post | auto |].
  intros x s' evs (Hx & _). exact (never_raised _ _ _ Hq Hi Hx).
Qed.



(** ** Runs *)

Lemma interrupted_not_quiet args env :
  raised_because args env KeyboardInterrupt -> ~ quiet env.
Proof. intros [[_ H] | [H _]]; [exact H | discriminate]. Qed.

(** The cycles of a run that returns carry consecutive numbers; left alone,
    with a sane cadence, it runs them all. *)
Lemma run_ok_cycle_numbers args env s ok s' evs :
  run_ok args env s ok s' evs ->
  exists k,
    cycle_numbers evs = count_from (frame_number s) k /\
    (ok = true -> quiet env ->
     k = Z.to_nat (start_frame args + frames args - frame_number s) /\
     frame_number s' = Z.max (frame_number s) (start_frame args + frames args)).
Proof.
  intros (_ & _ & H). destruct ok.
  - destruct H as (s1 & setup & looped & tail & -> & Hset & _ & _ & Hn & _ & Hend).
    destruct (housekeeping_reading _ Hset) as (_ & _ & _ & Cs).
    assert (Hnum : forall k, cycle_numbers looped = count_from (frame_number s1) k ->
                             cycle_numbers tail = [] ->
                             cycle_numbers
                               (Log LvlInfo (MsgTesting (host args)) :: GetStatus
                                :: setup ++ looped ++ tail
                                ++ [Log LvlInfo (MsgComplete (captured_count s')
                                                             (frame_number s' - 1))])
                             = count_from (frame_number s) k).
    { intros k Hl Ht. rewrite <- Hn, <- Hl. trace. now rewrite app_nil_r. }
    destruct Hend as [((Hn' & Cl & _) & ->) | ((Hx & _ & k & _ & _ & _ & Cl & _) & ->)].
    + eexists. split; [apply Hnum; [exact Cl | reflexivity] |].
      intros _ _. rewrite <- Hn. auto.
    + exists (S k). split; [apply Hnum; [exact Cl | reflexivity] |].
      intros _ Hq. apply interrupted_not_quiet in Hx. contradiction.
  - destruct H as (_ & lvl & msg & -> & Hmsg). exists 0%nat.
    split; [| discriminate].
    assert (Hall : forallb housekeeping
                     [Log LvlInfo (MsgTesting (host args)); Log lvl msg;
                      Log LvlError MsgCannotConnect] = true).
    { cbn [forallb andb housekeeping] in *. rewrite Hmsg. reflexivity. }
    destruct (housekeeping_reading _ Hall) as (_ & _ & _ & C).
    unfold cycle_numbers in *. cbn [flat_map cycle_number app] in *. exact C.
Qed.

Lemma run_raises_cycle_numbers args env s x s' evs :
  run_raises args env s x s' evs ->
  exists k, cycle_numbers evs = count_from (frame_number s) k.
Proof.
  intros (_ & _ & _ & setup & looped & -> & Hset & H).
  destruct (housekeeping_reading _ Hset) as (_ & _ & _ & Cs).
  destruct H as [(-> & _) | (s1 & Hn & _ & _ & k & _ & _ & _ & Cl & _)].
  - exists 0%nat. trace.
  - exists (S k). rewrite <- Hn, <- Cl. trace.
Qed.

(** Left alone, with a sane cadence, a run returns. *)
Lemma run_returns args env s :
  quiet env -> 0 <= interval args ->
  exists ok s' evs,
    run args env s = Ok ok s' evs /\ run_ok args env s ok s' evs.
Proof.
  intros Hq Hi. apply post_returns.
  eapply post_conseq; [apply run_post | auto |].
  intros x s' evs (_ & Hx & _). exact (never_raised _ _ _ Hq Hi Hx).
Qed.

(** ** C2: sequence numbers *)

(** C2. A cycle that resolves, [Completed] or [Skipped], advances the frame
    number by exactly 1, and it is the cycle of the number it started with;
    a cycle that is interrupted leaves the number as it was or advanced by
    1. Left alone (with a sane cadence) every cycle resolves. In a run,
    however it ends, the cycles carry consecutive numbers starting from the
    frame number of the controller, so no number is assigned to two cycles;
    an uninterrupted run of a healthy device runs one cycle for each number
    up to [start_frame + frames - 1]. *)
Theorem sequence_numbers_advance_by_one (args : Args) (env : Env) (s : State)
        (start_frame0 frames_to_capture end_frame : Z) :
  post (frame_cycle args env start_frame0 frames_to_capture end_frame) s
       (fun _ s' evs =>
          frame_number s' = frame_number s + 1 /\
          cycle_numbers evs = [frame_number s])
       (fun _ s' evs =>
          (frame_number s' = frame_number s \/
           frame_number s' = frame_number s + 1) /\
          cycle_numbers evs = [frame_number s]) /\
  (quiet env -> 0 <= interval args ->
   exists o s' evs,
     frame_cycle args env start_frame0 frames_to_capture end_frame s
     = Ok o s' evs) /\
  (forall r, r = run args env s ->
             r <> OutOfFuel /\
             exists k, cycle_numbers (events_of r) = count_from (frame_number s) k /\
                       NoDup (cycle_numbers (events_of r))) /\
  (healthy env = true -> quiet env -> 0 <= interval args ->
   exists s' evs,
     run args env s = Ok true s' evs /\
     cycle_numbers evs
     = count_from (frame_number s)
                  (Z.to_nat (start_frame args + frames args - frame_number s)) /\
     frame_number s' = Z.max (frame_number s) (start_frame args + frames args)).
Proof.
  split; [| split; [| split]].
  - eapply post_conseq; [apply frame_cycle_post | |].
    + intros o s' evs (Hn & C & _). auto.
    + intros x s' evs (_ & C & _ & [(Hs & _) | (o & Hn & _)]).
      * destruct (self_of_fields _ _ Hs) as (_ & _ & Hn & _). auto.
      * auto.
  - intros Hq Hi.
    destruct (frame_cycle_returns args env start_frame0 frames_to_capture
                                  end_frame s Hq Hi) as (o & s' & evs & E & _).
    eauto.
  - intros r ->. pose proof (run_post args env s) as H. unfold post in H.
    destruct (run args env s) as [ok s' evs | x s' evs |]; [| | contradiction].
    + split; [discriminate |].
      destruct (run_ok_cycle_numbers _ _ _ _ _ _ H) as (k & C & _).
      exists k. cbn [events_of]. rewrite C. split; [reflexivity |].
      apply count_from_NoDup.
    + split; [discriminate |].
      destruct (run_raises_cycle_numbers _ _ _ _ _ _ H) as (k & C).
      exists k. cbn [events_of]. rewrite C. split; [reflexivity |].
      apply count_from_NoDup.
  - intros Hh Hq Hi.
    destruct (run_returns args env s Hq Hi) as (ok & s' & evs & E & H).
    pose proof H as (Hok & _). rewrite Hh in Hok. subst ok.
    destruct (run_ok_cycle_numbers _ _ _ _ _ _ H) as (k & C & Hk).
    destruct (Hk eq_refl Hq) as (-> & Hn). eauto.
Qed.

(** A run of two frames in front of a camera whose first three captures
    time out: frame 0 is skipped, frame 1 completed, and the numbers of the
    cycles are 0 and 1. *)
Lemma sequence_numbers_advance_by_one_witness :
  let args := args_with 2 20 50 in
  exists s' evs,
    run args (flaky_camera 80) (init args 0) = Ok true s' evs /\
    cycle_numbers evs = [0; 1] /\
    frame_number s' = 2 /\
    captured_count s' = 1 /\
    writes evs <> [].
Proof.
  cbv zeta.
  destruct (sequence_numbers_advance_by_one
              (args_with 2 20 50) (flaky_camera 80)
              (init (args_with 2 20 50) 0) 0 2 2)
    as (_ & _ & _ & Hrun).
  destruct Hrun as (s' & evs & E & C & Hn).
  - reflexivity.
  - intros k. reflexivity.
  - cbn. lia.
  - exists s', evs. split; [exact E |]. split; [exact C |]. split; [exact Hn |].
    vm_compute in E. injection E as <- <-. split; [reflexivity | discriminate].
Defined.

(** ** C7: the health probe *)



(** ** C8: the number reported at the end *)

Lemma reported_last evs lvl count n :
  reported (evs ++ [Log lvl (MsgComplete count n)]) = Some n.
Proof. unfold reported. now rewrite last_last. Qed.

Lemma persisted_frame_files args n image b led history t e0 e1 e2 :
  writes e1 = frame_files args n image b led history t ->
  persisted args (e0 ++ e1 ++ e2) n.
Proof.
  intros Hw. exists image. apply in_or_app. right. apply in_or_app. left.
  assert (H : In (SaveJpeg (path_join (output args) (generate_filename args n)) image)
                 (writes e1)).
  { rewrite Hw. left. reflexivity. }
  unfold writes in H. apply filter_In in H. apply H.
Qed.

(** Where the cursor of a run that returns [True] stands: [k] cycles were
    started, with the numbers from [frame_number s] on, and the cursor is
    past the last of them, or still on it when Ctrl-C cut that cycle
    short. *)
Lemma run_ok_cursor args env s s' evs :
  run_ok args env s true s' evs ->
  exists k,
    cycle_numbers evs = count_from (frame_number s) k /\
    frame_number s + Z.of_nat k - 1 <= frame_number s'
    <= frame_number s + Z.of_nat k.
Proof.
  intros (_ & _ & H).
  destruct H as (s1 & setup & looped & tail & -> & Hset & _ & _ & Hn & _ & Hend).
  destruct (housekeeping_reading _ Hset) as (_ & _ & _ & Cs).
  assert (Hnum : forall k, cycle_numbers looped = count_from (frame_number s1) k ->
                           cycle_numbers tail = [] ->
                           cycle_numbers
                             (Log LvlInfo (MsgTesting (host args)) :: GetStatus
                              :: setup ++ looped ++ tail
                              ++ [Log LvlInfo (MsgComplete (captured_count s')
                                                           (frame_number s' - 1))])
                           = count_from (frame_number s) k).
  { intros k Hl Ht. rewrite <- Hn, <- Hl. trace. now rewrite app_nil_r. }
  destruct Hend as [((Hn' & Cl & _) & ->) | ((_ & _ & k & s0 & e0 & e1 & Cl & _ & _ & Hn0 & Hc) & ->)].
  - eexists. split; [apply Hnum; [exact Cl | reflexivity] |]. lia.
  - exists (S k). split; [apply Hnum; [exact Cl | reflexivity] |].
    destruct Hc as [(Hs & _) | (o & Hn' & _)].
    + destruct (self_of_fields _ _ Hs) as (_ & _ & Hn' & _). lia.
    + lia.
Qed.

(** C8, as the code has it. When a run ends, at the frame count or at Ctrl-C
    in the loop, the last line it logs reports the frame cursor minus one.
    That is the number of the last cycle that resolved, whether [Completed]
    or [Skipped] (or the start frame minus one if none resolved): when the
    run ended at the frame count or Ctrl-C arrived in the sleep that closes
    a cycle, the trace ends with a resolved cycle of that number followed by
    no file write; the number is that of a persisted frame when that cycle
    completed, and of a frame with no file when it was skipped. (When
    Ctrl-C cut a cycle short among its attempts, the cursor is still the
    number of that cycle.) As a start offset for the next run the reported
    number leaves no gap: the cycles of this run carry the consecutive
    numbers from its start up to the reported number or one past it, and a
    controller started with that offset begins at the reported number. *)
Theorem final_report_is_cursor_minus_one (args : Args) (env : Env) (s : State) :
  post (run args env) s
       (fun ok s' evs =>
          ok = true ->
          reported evs = Some (frame_number s' - 1) /\
          (exists k,
              cycle_numbers evs = count_from (frame_number s) k /\
              frame_number s + Z.of_nat k - 2 <= frame_number s' - 1
              <= frame_number s + Z.of_nat k - 1) /\
          (forall args' now,
              start_frame args' = frame_number s' - 1 ->
              frame_number (init args' now) = frame_number s' - 1) /\
          (cycle_numbers evs = [] /\ frame_number s' = frame_number s \/
           (exists s0 slept o e0 e1 e2,
               evs = e0 ++ e1 ++ e2 /\ writes e2 = [] /\
               cycle_ok args env s0 slept o s' e1 /\
               frame_number s0 = frame_number s' - 1 /\
               (o = Completed -> persisted args evs (frame_number s' - 1)) /\
               (o = Skipped -> writes e1 = [])) \/
           (~ quiet env /\
            exists s0 e0 e1 e2,
              evs = e0 ++ e1 ++ e2 /\ cycle_cut s0 s' e1 /\
              frame_number s0 = frame_number s')))
       (fun _ _ _ => True).
Proof.
  eapply post_conseq; [apply run_post | | auto].
  intros ok s' evs Hrun ->.
  destruct (run_ok_cursor _ _ _ _ _ Hrun) as (k & Ck & Hk).
  destruct Hrun as (_ & _ & H).
  destruct H as (s1 & setup & looped & tail & -> & Hset & _ & _ & Hn & _ & Hend).
  destruct (housekeeping_reading _ Hset) as (_ & _ & _ & Cs).
  split.
  { rewrite !app_comm_cons, !app_assoc. apply reported_last. }
  split; [exists k; split; [exact Ck | lia] |].
  split; [intros args' now H; exact H |].
  assert (Hresolved :
            forall s0 slept o evs0 evs1,
              looped = evs0 ++ evs1 -> cycle_ok args env s0 slept o s' evs1 ->
              (tail = [] \/ tail = [Log LvlInfo MsgInterrupted]) ->
              exists s0 slept o e0 e1 e2,
                Log LvlInfo (MsgTesting (host args)) :: GetStatus :: setup
                ++ looped ++ tail
                ++ [Log LvlInfo (MsgComplete (captured_count s') (frame_number s' - 1))]
                = e0 ++ e1 ++ e2 /\ writes e2 = [] /\
                cycle_ok args env s0 slept o s' e1 /\
                frame_number s0 = frame_number s' - 1 /\
                (o = Completed ->
                 persisted args
                   (Log LvlInfo (MsgTesting (host args)) :: GetStatus :: setup
                    ++ looped ++ tail
                    ++ [Log LvlInfo (MsgComplete (captured_count s') (frame_number s' - 1))])
                   (frame_number s' - 1)) /\
                (o = Skipped -> writes e1 = [])).
  { intros s0 slept o evs0 evs1 -> Hc Htail.
    assert (Esplit :
              Log LvlInfo (MsgTesting (host args)) :: GetStatus :: setup
              ++ (evs0 ++ evs1) ++ tail
              ++ [Log LvlInfo (MsgComplete (captured_count s') (frame_number s' - 1))]
              = (Log LvlInfo (MsgTesting (host args)) :: GetStatus :: setup ++ evs0)
                  ++ evs1
                  ++ (tail ++ [Log LvlInfo (MsgComplete (captured_count s')
                                                        (frame_number s' - 1))])).
    { cbn [app]. now rewrite <- !app_assoc. }
    exists s0, slept, o. do 3 eexists. split; [exact Esplit |].
    split; [destruct Htail as [-> | ->]; reflexivity |].
    split; [exact Hc |].
    pose proof Hc as (Hn0 & _ & _ & Ho).
    split; [lia |]. split.
    - intros ->. destruct Ho as (image & t & _ & _ & _ & _ & _ & Hw).
      rewrite Esplit. replace (frame_number s' - 1) with (frame_number s0) by lia.
      eapply persisted_frame_files. exact Hw.
    - intros ->. now destruct Ho as (_ & _ & _ & Hw & _). }
  destruct Hend as [((Hn' & Cl & _ & Hlast) & ->) | ((Hx & _ & Hcut) & ->)].
  - destruct Hlast as [(-> & -> & _) | (s0 & o & evs0 & evs1 & El & Hc)].
    + left. split; [trace | exact Hn].
    + right. left. eapply Hresolved; eauto.
  - destruct Hcut as (k' & s0 & evs0 & evs1 & _ & _ & El & _ & [Hc | (o & Hc)]).
    + right. right. split; [now apply interrupted_not_quiet in Hx |].
      exists s0. do 3 eexists. split; [| split; [exact Hc |]].
      * rewrite El.
        instantiate (2 := Log LvlInfo (MsgTesting (host args)) :: GetStatus
                           :: setup ++ evs0).
        cbn [app]. rewrite <- !app_assoc. reflexivity.
      * destruct Hc as (Hs & _).
        now destruct (self_of_fields _ _ Hs) as (_ & _ & -> & _).
    + right. left. eapply Hresolved; eauto.
Qed.

Lemma persisted_of_writes args evs n image :
  In (SaveJpeg (path_join (output args) (generate_filename args n)) image)
     (writes evs) ->
  persisted args evs n.
Proof.
  intros H. exists image. unfold writes in H. apply filter_In in H. apply H.
Qed.

Lemma not_persisted_without_writes args evs n :
  writes evs = [] -> ~ persisted args evs n.
Proof.
  intros Hw [image H].
  assert (Hin : In (SaveJpeg (path_join (output args) (generate_filename args n))
                             image) (writes evs)).
  { unfold writes. apply filter_In. split; [exact H | reflexivity]. }
  rewrite Hw in Hin. exact Hin.
Qed.

(** Ctrl-C in the sleep that closes cycle 0 of a run in front of a steady
    scene (sleep number 28: 26 settings, the pause after the set-up, the
    settle delay of the attempt, then the wait for the next frame): the run
    reports frame 0, which was persisted. *)
Lemma final_report_is_cursor_minus_one_witness :
  let args := args_with 3 20 50 in
  exists s' evs,
    run args (interrupted_at 28 80) (init args 0) = Ok true s' evs /\
    frame_number s' = 1 /\
    reported evs = Some 0 /\
    persisted args evs 0.
Proof.
  cbv zeta.
  do 2 eexists. split; [vm_compute; reflexivity |].
  match goal with
  | |- frame_number ?s' = 1 /\ reported ?evs = _ /\ _ =>
      assert (E : run (args_with 3 20 50) (interrupted_at 28 80)
                      (init (args_with 3 20 50) 0) = Ok true s' evs)
        by (vm_compute; reflexivity)
  end.
  destruct (post_ok _ _ _ _ _ _ _
              (final_report_is_cursor_minus_one
                 (args_with 3 20 50) (interrupted_at 28 80)
                 (init (args_with 3 20 50) 0)) E eq_refl) as (Hrep & _).
  split; [reflexivity |]. split; [exact Hrep |].
  apply persisted_of_writes with (image := flat_image 80).
  vm_compute. left. reflexivity.
Defined.

(** C8 as stated fails: the number reported is not always that of a
    persisted frame. A run of one frame whose three captures all time out
    skips frame 0, writes no file at all, and reports frame 0 as its last
    frame. *)
Lemma reported_frame_not_persisted :
  let args := args_with 1 20 50 in
  exists s' evs,
    run args dead_camera (init args 0) = Ok true s' evs /\
    captured_count s' = 0 /\
    reported evs = Some 0 /\
    writes evs = [] /\
    ~ persisted args evs 0.
Proof.
  cbv zeta. do 2 eexists. split; [vm_compute; reflexivity |].
  split; [reflexivity |]. split; [reflexivity |]. split; [reflexivity |].
  apply not_persisted_without_writes. reflexivity.
Qed.

(** ** C1: the cadence *)

(** C1 fails on the skip path. A cycle of a run with a cadence of 20 s whose
    three captures all time out is busy for 3.6 s (three settle delays of
    0.2 s and three back-offs of 1 s; the device answers at once), is
    skipped, and then sleeps the whole cadence, 20 s, not
    [max(0, 20 - 3.6) = 16.4] s: the next cycle starts 23.6 s after this
    one. *)
Theorem skipped_cycle_sleeps_whole_cadence :
  let args := args_with 2 20 50 in
  let s := init args 0 in
  exists s' evs,
    frame_cycle args dead_camera 0 2 2 s = Ok Skipped s' evs /\
    sleeps evs = [2 # 10; 1; 2 # 10; 1; 2 # 10; 1; 20]%Q /\
    (clock s' - clock s == 236 # 10)%Q /\
    (Py.qmax 0 (inject_Z (interval args) - (36 # 10)) == 164 # 10)%Q /\
    ~ (20 == Py.qmax 0 (inject_Z (interval args) - (36 # 10)))%Q.
Proof.
  cbv zeta. do 2 eexists. split; [vm_compute; reflexivity |].
  split; [reflexivity |]. split; [reflexivity |]. split; [reflexivity |].
  intros H. vm_compute in H. discriminate H.
Qed.

(** The skip path in general: whatever time the attempts took, a skipped
    cycle ends with a sleep of the whole cadence. *)
Lemma skipped_cycle_sleep args env start_frame frames_to_capture end_frame s :
  post (frame_cycle args env start_frame frames_to_capture end_frame) s
       (fun o _ evs =>
          o = Skipped ->
          exists evs0,
            evs = evs0 ++ [Log LvlError MsgSkipping;
                           Sleep (inject_Z (interval args))])
       (fun _ _ _ => True).
Proof.
  eapply post_conseq; [apply frame_cycle_post | | auto].
  intros o s' evs (_ & _ & _ & H) ->.
  now destruct H as (_ & _ & _ & _ & _ & H).
Qed.

(** ** Further properties of the controller *)



Lemma controls_app e1 e2 : controls (e1 ++ e2) = controls e1 ++ controls e2.
Proof. apply flat_map_app. Qed.

Lemma bind_ok {A B} (m : M A) (f : A -> M B) s a s1 e1 b s2 e2 :
  m s = Ok a s1 e1 -> f a s1 = Ok b s2 e2 ->
  bind m f s = Ok b s2 (e1 ++ e2).
Proof. intros E1 E2. unfold bind. now rewrite E1, E2. Qed.

Lemma bind_gets_ok {A B} (f : State -> A) (k : A -> M B) s b s2 e2 :
  k (f s) s = Ok b s2 e2 -> bind (gets f) k s = Ok b s2 e2.
Proof. intros E. unfold bind, gets. now rewrite E. Qed.

Lemma sleep_ok env d s :
  quiet env -> Qle_bool 0 d = true ->
  sleep env d s = Ok tt (after_sleep d s) [Sleep d].
Proof. intros Hq Hd. unfold sleep. now rewrite Hd, Hq. Qed.

Lemma set_control_controls env var val s :
  exists ok s' evs,
    set_control env var val s = Ok ok s' evs /\
    self_of s' = self_of s /\ controls evs = [(var, val)].
Proof.
  destruct (set_control_run env var val s) as (ok & lvl & msg & E & _).
  do 3 eexists. split; [exact E |]. split; reflexivity.
Qed.

Lemma apply_settings_controls env (l : list (string * Z)) s :
  quiet env ->
  exists s' evs,
    for_each l (fun '(var, val) =>
                  set_control env var val ;; sleep env (5 # 100)) s
    = Ok tt s' evs /\
    self_of s' = self_of s /\ controls evs = l.
Proof.
  intros Hq. revert s. induction l as [| [var val] l IH]; intros s.
  - exists s, []. repeat split.
  - destruct (set_control_controls env var val s)
      as (ok & s1 & e1 & E1 & S1 & C1).
    destruct (IH (after_sleep (5 # 100) s1)) as (s2 & e2 & E2 & S2 & C2).
    exists s2, (e1 ++ [Sleep (5 # 100)] ++ e2).
    split; [| split; [rewrite S2; exact S1 |]].
    + cbn [for_each].
      replace (e1 ++ [Sleep (5 # 100)] ++ e2)
        with ((e1 ++ [Sleep (5 # 100)]) ++ e2) by now rewrite <- app_assoc.
      eapply bind_ok; [| exact E2].
      eapply bind_ok; [exact E1 |]. now apply sleep_ok.
    + rewrite !controls_app, C1, C2. reflexivity.
Qed.

(** X2. Configuration is best-effort: whatever the device answers to each
    setting (success, an error status, no answer at all), an uninterrupted
    [configure_camera] returns, leaves the controller as it is, and has sent
    every setting of the list, in order, followed by the initial LED
    level: a failure on one key does not keep the others from being
    applied. *)
Theorem configuration_is_best_effort (args : Args) (env : Env) (s : State) :
  quiet env ->
  exists s' evs,
    configure_camera args env s = Ok tt s' evs /\
    self_of s' = self_of s /\
    controls evs = settings args ++ [("led_intensity"%string, current_led s)] /\
    List.length (controls evs) = 27%nat.
Proof.
  intros Hq.
  destruct (apply_settings_controls env (settings args) s Hq)
    as (s1 & e1 & E1 & S1 & C1).
  destruct (set_control_controls env "led_intensity" (current_led s1) s1)
    as (ok & s2 & e2 & E2 & S2 & C2).
  destruct (self_of_fields _ _ S1) as (Hled & _).
  exists s2, ([Log LvlInfo MsgConfiguring] ++ e1 ++ e2 ++ [Log LvlInfo MsgConfigured]).
  split; [| split; [congruence | split]].
  - unfold configure_camera.
    eapply bind_ok; [reflexivity |].
    eapply bind_ok; [exact E1 |].
    apply bind_gets_ok.
    eapply bind_ok; [exact E2 |]. reflexivity.
  - rewrite !controls_app, C1, C2, Hled. cbn. rewrite ?app_nil_r. reflexivity.
  - rewrite !controls_app, C1, C2. reflexivity.
Qed.

(** A device that refuses every setting is still sent all 27. *)
Lemma configuration_is_best_effort_witness :
  exists s' evs,
    configure_camera default_args stubborn_device (init default_args 0)
    = Ok tt s' evs /\
    List.length (controls evs) = 27%nat /\
    last (controls evs) (EmptyString, 0) = ("led_intensity"%string, 50).
Proof.
  destruct (configuration_is_best_effort
              default_args stubborn_device (init default_args 0))
    as (s' & evs & E & _ & C & L).
  - intros k. reflexivity.
  - exists s', evs. split; [exact E |]. split; [exact L |].
    rewrite C. reflexivity.
Defined.

Lemma sum_pixels_bounds (l : list Z) (a : Z) :
  Forall (fun p => 0 <= p <= 255) l ->
  a <= fold_left Z.add l a <= a + 255 * Z.of_nat (List.length l).
Proof.
  intros H. revert a. induction H as [| p l Hp _ IH]; intros a.
  - cbn. lia.
  - cbn [fold_left List.length]. specialize (IH (a + p)). lia.
Qed.



(** * File names, runs and the assembler *)

(** ** Sequence numbers read back from file names *)

Lemma digit_char_spec d :
  0 <= d <= 9 ->
  is_digit (Py.digit_char d) = true /\
  Z.of_nat (nat_of_ascii (Py.digit_char d)) - 48 = d /\
  Ascii.eqb (Py.digit_char d) "-" = false.
Proof.
  intros H.
  assert (E : d = 0 \/ d = 1 \/ d = 2 \/ d = 3 \/ d = 4 \/ d = 5 \/ d = 6
              \/ d = 7 \/ d = 8 \/ d = 9) by lia.
  repeat (destruct E as [-> | E]); try subst d; repeat split; reflexivity.
Qed.

Lemma digits_string_spec (ds : list Z) (acc : Z) (tail : string) :
  Forall (fun d => 0 <= d <= 9) ds ->
  all_digits (string_of_list_ascii (map Py.digit_char ds)) = true /\
  int_of_digits_from acc (string_of_list_ascii (map Py.digit_char ds) ++ tail)
  = int_of_digits_from (fold_left (fun v d => 10 * v + d) ds acc) tail.
Proof.
  intros H. revert acc. induction H as [| d ds Hd _ IH]; intros acc.
  - split; reflexivity.
  - destruct (digit_char_spec d Hd) as (Hdig & Hval & _).
    destruct (IH (10 * acc + d)) as (IH1 & IH2).
    cbn [map string_of_list_ascii all_digits fold_left append int_of_digits_from].
    rewrite Hdig, Hval. split; [exact IH1 | exact IH2].
Qed.

(** The digits [dec] writes, for any number that is not negative. *)
Lemma dec_digits n :
  0 <= n ->
  all_digits (Py.dec n) = true /\ int_of_digits (Py.dec n) = n /\
  Py.dec n <> EmptyString.
Proof.
  intros Hn. unfold Py.dec.
  destruct (dec_aux_value (S (Z.to_nat (Z.log2 n))) n EmptyString)
    as (ds & E & Hds & Hv & Hne).
  - split; [exact Hn |].
    destruct (Z.eq_dec n 0) as [-> | Hnz]; [cbn; lia |].
    rewrite Nat2Z.inj_succ, Z2Nat.id by apply Z.log2_nonneg.
    apply Z.log2_spec. lia.
  - lia.
  - rewrite E, string_append_empty.
    destruct (digits_string_spec ds 0 EmptyString Hds) as (Hall & Hint).
    split; [exact Hall |]. split.
    + unfold int_of_digits. rewrite <- (string_append_empty (string_of_list_ascii _)).
      rewrite Hint. exact Hv.
    + destruct ds; [congruence | discriminate].
Qed.

Lemma zeros_spec k (s : string) :
  all_digits (string_of_list_ascii (repeat "0"%char k) ++ s) = all_digits s /\
  int_of_digits (string_of_list_ascii (repeat "0"%char k) ++ s) = int_of_digits s.
Proof.
  induction k as [| k [IH1 IH2]]; [split; reflexivity |].
  cbn [repeat string_of_list_ascii append all_digits].
  split; [exact IH1 |]. unfold int_of_digits in *. cbn [int_of_digits_from].
  exact IH2.
Qed.

Lemma zfill_digits w s :
  all_digits (Py.zfill w s) = all_digits s /\
  int_of_digits (Py.zfill w s) = int_of_digits s.
Proof. unfold Py.zfill. apply zeros_spec. Qed.

Lemma all_digits_no_sign s :
  all_digits s = true -> s <> EmptyString -> int_of_str s = int_of_digits s.
Proof.
  destruct s as [| c s]; [congruence |]. intros H _. cbn in H.
  apply andb_prop in H. destruct H as [Hc _]. unfold int_of_str.
  destruct (Ascii.eqb_spec c "-") as [-> | _]; [discriminate Hc | reflexivity].
Qed.

Lemma zfill_not_empty w s : s <> EmptyString -> Py.zfill w s <> EmptyString.
Proof.
  intros Hs H. apply (f_equal String.length) in H.
  rewrite zfill_length in H. destruct s; [congruence | cbn in H; lia].
Qed.

Lemma string_app_inv_head (p a b : string) :
  (p ++ a = p ++ b)%string -> a = b.
Proof.
  induction p as [| c p IH]; cbn; intros H; [exact H |].
  injection H as H. now apply IH.
Qed.

Lemma string_app_inv_tail (a b t : string) :
  (a ++ t = b ++ t)%string -> a = b.
Proof.
  revert b. induction a as [| c a IH]; intros [| d b] H; cbn in H.
  - reflexivity.
  - apply (f_equal String.length) in H. cbn in H.
    rewrite string_append_length in H. lia.
  - apply (f_equal String.length) in H. cbn in H.
    rewrite string_append_length in H. lia.
  - injection H as -> H. f_equal. now apply IH.
Qed.

(** Read back as an integer, the text of a sequence number gives the number,
    whatever its sign and size. *)
Lemma fmt05d_read_back (k : Z) : int_of_str (Py.fmt05d k) = k.
Proof.
  unfold Py.fmt05d. destruct (Z.ltb_spec k 0) as [Hneg | Hpos].
  - unfold int_of_str. cbn [Ascii.eqb Bool.eqb].
    destruct (dec_digits (- k)) as (_ & Hv & _); [lia |].
    destruct (zfill_digits 4 (Py.dec (- k))) as (_ & Hz).
    rewrite Hz, Hv. lia.
  - destruct (dec_digits k Hpos) as (Ha & Hv & Hne).
    destruct (zfill_digits 5 (Py.dec k)) as (Hza & Hzv).
    rewrite all_digits_no_sign.
    + now rewrite Hzv.
    + now rewrite Hza.
    + now apply zfill_not_empty.
Qed.

Lemma fmt05d_inj (n m : Z) : Py.fmt05d n = Py.fmt05d m -> n = m.
Proof.
  intros H. rewrite <- (fmt05d_read_back n), <- (fmt05d_read_back m), H.
  reflexivity.
Qed.

Lemma jpg_is_not_json (a b : string) :
  (a ++ ".jpg")%string <> (b ++ ".json")%string.
Proof.
  revert b. induction a as [| c a IH]; intros [| d b] H; cbn in H.
  - discriminate H.
  - apply (f_equal String.length) in H. cbn in H.
    rewrite string_append_length in H. cbn in H. lia.
  - destruct a as [| c' a]; [discriminate H |].
    apply (f_equal String.length) in H. cbn in H.
    rewrite string_append_length in H. cbn in H. lia.
  - injection H as _ H. now apply IH in H.
Qed.

Lemma generate_filename_inj (args : Args) (n m : Z) :
  generate_filename args n = generate_filename args m -> n = m.
Proof.
  unfold generate_filename. intros H.
  apply string_app_inv_head, string_app_inv_head, string_app_inv_tail in H.
  now apply fmt05d_inj.
Qed.

Lemma metadata_filename_inj (args : Args) (n m : Z) :
  metadata_filename args n = metadata_filename args m -> n = m.
Proof.
  unfold metadata_filename. intros H.
  apply string_app_inv_head, string_app_inv_head, string_app_inv_tail in H.
  now apply fmt05d_inj.
Qed.

Lemma image_name_is_no_record_name (args : Args) (n m : Z) :
  generate_filename args n <> metadata_filename args m.
Proof.
  unfold generate_filename, metadata_filename. intros H.
  apply string_app_inv_head, string_app_inv_head in H.
  now apply jpg_is_not_json in H.
Qed.

(** X4. File names never collide: two different sequence numbers never get
    the same image name or the same record name, whatever their sign and
    size (the [:05d] format pads, it never truncates), and no image name is
    a record name. *)
Theorem frame_names_never_collide (args : Args) (n m : Z) :
  (generate_filename args n = generate_filename args m -> n = m) /\
  (metadata_filename args n = metadata_filename args m -> n = m) /\
  generate_filename args n <> metadata_filename args m.
Proof.
  split; [apply generate_filename_inj |].
  split; [apply metadata_filename_inj | apply image_name_is_no_record_name].
Qed.

(** Frames -7, 516 and 123456 of the default base name. *)
Lemma frame_names_never_collide_witness :
  generate_filename default_args 516 = "frame_00516.jpg"%string /\
  generate_filename default_args (-7) = "frame_-0007.jpg"%string /\
  generate_filename default_args 123456 = "frame_123456.jpg"%string /\
  metadata_filename default_args 516 = "frame_00516.json"%string /\
  generate_filename default_args 516 <> generate_filename default_args 517.
Proof.
  repeat split; try reflexivity.
  intros H.
  destruct (frame_names_never_collide default_args 516 517) as (Hinj & _).
  specialize (Hinj H). discriminate Hinj.
Defined.

(** ** The assembler's pattern against the names the controller writes *)

Lemma string_append_assoc (a b c : string) :
  ((a ++ b) ++ c = a ++ (b ++ c))%string.
Proof. induction a as [| x a IH]; cbn; congruence. Qed.

Lemma strip_prefix_app (p s : string) : strip_prefix p (p ++ s) = Some s.
Proof.
  induction p as [| c p IH]; cbn; [reflexivity |].
  now rewrite Ascii.eqb_refl.
Qed.

Lemma take_digits_all (d tail : string) :
  all_digits d = true ->
  take_digits (String.length d) (d ++ tail) = Some (d, tail).
Proof.
  induction d as [| c d IH]; cbn; intros H; [reflexivity |].
  apply andb_prop in H. destruct H as [Hc Hd]. now rewrite Hc, IH.
Qed.

(** With more digits than asked for, what follows the match starts with a
    digit. *)
Lemma take_digits_more k (s tail : string) :
  all_digits s = true -> (k < String.length s)%nat ->
  exists d c rest,
    take_digits k (s ++ tail) = Some (d, String c rest) /\ is_digit c = true.
Proof.
  revert s. induction k as [| k IH]; intros [| c s] H Hlen; cbn in Hlen; try lia.
  - cbn in H. apply andb_prop in H. destruct H as [Hc _].
    exists EmptyString, c, (s ++ tail)%string. split; [reflexivity | exact Hc].
  - cbn in H. apply andb_prop in H. destruct H as [Hc Hs].
    destruct (IH s Hs ltac:(lia)) as (d & c' & rest & E & Hc').
    exists (String c d), c', rest. cbn. rewrite Hc, E. auto.
Qed.

Lemma int_of_digits_from_bound (s : string) (acc : Z) :
  all_digits s = true -> 0 <= acc ->
  0 <= int_of_digits_from acc s
  < (acc + 1) * 10 ^ Z.of_nat (String.length s).
Proof.
  revert acc. induction s as [| c s IH]; intros acc H Hacc.
  - cbn. lia.
  - cbn in H. apply andb_prop in H. destruct H as [Hc Hs].
    unfold is_digit in Hc. cbv zeta in Hc. apply andb_prop in Hc.
    destruct Hc as [Hlo Hhi].
    apply Nat.leb_le in Hlo. apply Nat.leb_le in Hhi.
    cbn [int_of_digits_from String.length].
    set (v := Z.of_nat (nat_of_ascii c) - 48).
    assert (Hv : 0 <= v <= 9) by (unfold v; lia).
    specialize (IH (10 * acc + v) Hs ltac:(lia)).
    rewrite Nat2Z.inj_succ, Z.pow_succ_r by lia.
    nia.
Qed.

(** The text of a sequence number that is not negative: digits only, worth
    the number, at least five of them. *)
Lemma fmt05d_nonneg n :
  0 <= n ->
  all_digits (Py.fmt05d n) = true /\ int_of_digits (Py.fmt05d n) = n /\
  (5 <= String.length (Py.fmt05d n))%nat.
Proof.
  intros Hn. unfold Py.fmt05d. destruct (Z.ltb_spec n 0) as [H | _]; [lia |].
  destruct (dec_digits n Hn) as (Ha & Hv & _).
  destruct (zfill_digits 5 (Py.dec n)) as (Hza & Hzv).
  rewrite Hza, Hzv, zfill_length. repeat split; auto. lia.
Qed.

(** What the pattern makes of a name the controller could have written,
    with any extension. *)
Lemma pattern_match_generated (base : string) (n : Z) (ext : string) :
  pattern_match base (base ++ "_" ++ Py.fmt05d n ++ String "." ext)
  = if (0 <=? n) && (n <=? 99999)
       && (String.eqb (String "." ext) ".jpg"
           || String.eqb (String "." ext) (".jpg" ++ newline))
    then Some (Py.fmt05d n) else None.
Proof.
  unfold pattern_match.
  rewrite <- (string_append_assoc base "_"), strip_prefix_app.
  destruct (Z.leb_spec 0 n) as [Hpos | Hneg]; cbn [andb].
  - destruct (fmt05d_nonneg n Hpos) as (Ha & Hv & Hlen).
    destruct (Z.leb_spec n 99999) as [Hsmall | Hbig]; cbn [andb].
    + pose proof (fmt05d_width n ltac:(lia)) as Hw.
      pose proof (take_digits_all (Py.fmt05d n) (String "." ext) Ha) as E.
      rewrite Hw in E. rewrite E. reflexivity.
    + assert (Hlong : (5 < String.length (Py.fmt05d n))%nat).
      { pose proof (int_of_digits_from_bound (Py.fmt05d n) 0 Ha ltac:(lia)) as B.
        fold (int_of_digits (Py.fmt05d n)) in B. rewrite Hv in B.
        destruct (Nat.eq_dec (String.length (Py.fmt05d n)) 5) as [E5 | N5]; [| lia].
        rewrite E5 in B. change (10 ^ Z.of_nat 5) with 100000 in B. lia. }
      destruct (take_digits_more 5 (Py.fmt05d n) (String "." ext) Ha Hlong)
        as (d & c & rest & E & Hc).
      rewrite E. cbn [String.eqb append].
      destruct (Ascii.eqb_spec c ".") as [-> | _]; [discriminate Hc |].
      reflexivity.
  - unfold Py.fmt05d. destruct (Z.ltb_spec n 0) as [_ | H]; [| lia].
    reflexivity.
Qed.



(** ** The cycles of a run, one after the other *)

Lemma run_loop_cycles args env fuel start_frame frames_to_capture end_frame s :
  (Z.to_nat (end_frame - frame_number s) < fuel)%nat ->
  post (run_loop args env fuel start_frame frames_to_capture end_frame) s
       (fun _ s' evs =>
          cycles args env s s' evs /\
          frame_number s' = Z.max (frame_number s) end_frame)
       (fun _ s' evs =>
          cycles args env s s' evs /\
          frame_number s' <= Z.max (frame_number s) end_frame).
Proof.
  revert s. induction fuel as [| fuel IH]; intros s Hfuel; [lia |].
  cbn [run_loop]. apply post_bind, post_gets.
  destruct (Z.ltb_spec (frame_number s) end_frame) as [Hlt | Hge].
  - apply post_bind.
    eapply post_conseq; [apply frame_cycle_post | |].
    + intros o s1 e1 Hcycle. pose proof Hcycle as (Hn1 & _).
      eapply post_conseq; [apply IH; lia | |].
      * intros [] s' e2 (Hc & Hn).
        split; [exact (cycles_more _ _ _ _ _ _ _ _ Hcycle Hc) | lia].
      * intros x s' e2 (Hc & Hn).
        split; [exact (cycles_more _ _ _ _ _ _ _ _ Hcycle Hc) | lia].
    + intros x s' e1 (_ & _ & _ & [Hcut | (o & Hok)]).
      * split; [now apply cycles_cut |].
        destruct Hcut as (Hs & _).
        destruct (self_of_fields _ _ Hs) as (_ & _ & Hn & _). lia.
      * split; [eapply cycles_stopped; eauto |].
        destruct Hok as (Hn & _). lia.
  - apply post_ret. split; [constructor | lia].
Qed.

(** The anatomy of a run: what comes before the loop writes nothing and
    hands the controller over with its counter at 0; the loop is a chain of
    cycles; what follows writes nothing and ends with the report. *)
Lemma run_anatomy args env s :
  post (run args env) s
       (fun ok s' evs =>
          if ok then
            exists s1 pre looped tail,
              evs = pre ++ looped ++ tail
                    ++ [Log LvlInfo (MsgComplete (captured_count s')
                                                 (frame_number s' - 1))] /\
              writes pre = [] /\ writes tail = [] /\
              current_led s1 = current_led s /\
              brightness_history s1 = brightness_history s /\
              frame_number s1 = frame_number s /\
              captured_count s1 = 0 /\
              cycles args env s1 s' looped /\
              frame_number s'
              <= Z.max (frame_number s) (start_frame args + frames args)
          else writes evs = [])
       (fun _ s' evs =>
          exists s1 pre looped,
            evs = pre ++ looped /\
            writes pre = [] /\
            current_led s1 = current_led s /\
            brightness_history s1 = brightness_history s /\
            frame_number s1 = frame_number s /\
            cycles args env s1 s' looped /\
            frame_number s'
            <= Z.max (frame_number s) (start_frame args + frames args)).
Proof.
  unfold run.
  destruct (test_connection_run args env s) as (lvl & msg & E & Hmsg).
  apply post_bind. eapply post_run; [exact E |].
  destruct (healthy env) eqn:Hh; cbn [negb].
  - apply post_bind.
    eapply post_conseq; [apply configure_camera_post | |].
    + intros [] s1 e1 (S1 & H1).
      destruct (self_of_fields _ _ S1) as (Hled & Hhist & Hn & Hcount).
      cbn in Hled, Hhist, Hn, Hcount.
      destruct (housekeeping_reading _ H1) as (W1 & _).
      apply post_bind, post_sleep.
      * intros H. exfalso. apply H. discriminate.
      * intros _ I.
        exists s1, ([Log LvlInfo (MsgTesting (host args)); GetStatus; Log lvl msg]
                    ++ e1), [].
        rewrite !app_nil_r. split; [reflexivity |]. split; [trace |].
        repeat split; auto; [constructor | lia].
      * intros _ _.
        apply post_bind, post_log. apply post_bind, post_log.
        apply post_bind, post_log. apply post_bind, post_modify.
        apply post_bind, post_try.
        apply post_bind, post_gets.
        eapply post_conseq;
          [apply run_loop_cycles; unfold loop_fuel; lia | |].
        -- intros [] s2 el (Hc & Hn2).
           apply post_bind, post_gets. apply post_bind, post_gets.
           apply post_bind, post_log. apply post_ret.
           eexists (set_captured_count 0 (after_sleep 1 s1)),
                   ([Log LvlInfo (MsgTesting (host args)); GetStatus; Log lvl msg]
                    ++ e1 ++ [Sleep 1; _; _; _]), el, [].
           split; [cbn [app]; rewrite <- ?app_assoc; reflexivity |].
           split; [trace |]. split; [reflexivity |].
           cbn [current_led brightness_history frame_number captured_count
                set_captured_count after_sleep] in *.
           repeat split; auto. lia.
        -- intros [] s2 el (Hc & Hn2).
           ++ apply post_log.
              apply post_bind, post_gets. apply post_bind, post_gets.
              apply post_bind, post_log. apply post_ret.
              eexists (set_captured_count 0 (after_sleep 1 s1)),
                      ([Log LvlInfo (MsgTesting (host args)); GetStatus;
                        Log lvl msg] ++ e1 ++ [Sleep 1; _; _; _]), el,
                      [Log LvlInfo MsgInterrupted].
              split; [cbn [app]; rewrite <- ?app_assoc; reflexivity |].
              split; [trace |]. split; [reflexivity |].
              cbn [current_led brightness_history frame_number captured_count
                   set_captured_count after_sleep] in *.
              repeat split; auto. lia.
           ++ eexists (set_captured_count 0 (after_sleep 1 s1)),
                      ([Log LvlInfo (MsgTesting (host args)); GetStatus;
                        Log lvl msg] ++ e1 ++ [Sleep 1; _; _; _]), el.
              split; [cbn [app]; rewrite <- ?app_assoc; reflexivity |].
              split; [trace |].
              cbn [current_led brightness_history frame_number captured_count
                   set_captured_count after_sleep] in *.
              repeat split; auto. lia.
           ++ eexists (set_captured_count 0 (after_sleep 1 s1)),
                      ([Log LvlInfo (MsgTesting (host args)); GetStatus;
                        Log lvl msg] ++ e1 ++ [Sleep 1; _; _; _]), el.
              split; [cbn [app]; rewrite <- ?app_assoc; reflexivity |].
              split; [trace |].
              cbn [current_led brightness_history frame_number captured_count
                   set_captured_count after_sleep] in *.
              repeat split; auto. lia.
           ++ eexists (set_captured_count 0 (after_sleep 1 s1)),
                      ([Log LvlInfo (MsgTesting (host args)); GetStatus;
                        Log lvl msg] ++ e1 ++ [Sleep 1; _; _; _]), el.
              split; [cbn [app]; rewrite <- ?app_assoc; reflexivity |].
              split; [trace |].
              cbn [current_led brightness_history frame_number captured_count
                   set_captured_count after_sleep] in *.
              repeat split; auto. lia.
    + intros x s' e (Hx & Hq & Hs & He).
      destruct (housekeeping_reading _ He) as (W1 & _).
      destruct (self_of_fields _ _ Hs) as (Hled & Hhist & Hn & Hcount).
      cbn in Hled, Hhist, Hn, Hcount.
      exists s', ([Log LvlInfo (MsgTesting (host args)); GetStatus; Log lvl msg]
                  ++ e), [].
      rewrite !app_nil_r. split; [reflexivity |]. split; [trace |].
      repeat split; auto; [constructor | lia].
  - apply post_bind, post_log. apply post_ret. reflexivity.
Qed.

Lemma paths_written_app e1 e2 :
  paths_written (e1 ++ e2) = paths_written e1 ++ paths_written e2.
Proof. apply flat_map_app. Qed.

Lemma images_saved_app e1 e2 :
  images_saved (e1 ++ e2) = images_saved e1 ++ images_saved e2.
Proof. apply filter_app. Qed.

(** Paths and images are read off the writes. *)
Lemma paths_written_writes evs : paths_written evs = paths_written (writes evs).
Proof.
  induction evs as [| e evs IH]; [reflexivity |].
  unfold paths_written, writes in *. cbn [flat_map filter].
  destruct e; cbn [is_write flat_map path_of app]; rewrite IH; reflexivity.
Qed.

Lemma images_saved_writes evs : images_saved evs = images_saved (writes evs).
Proof.
  induction evs as [| e evs IH]; [reflexivity |].
  unfold images_saved, writes in *. cbn [filter].
  destruct e; cbn [is_write is_image filter]; rewrite IH; reflexivity.
Qed.

Lemma frame_files_paths args n image b led history t :
  paths_written (frame_files args n image b led history t) = frame_paths args n.
Proof. unfold frame_files, frame_paths. now destruct (save_metadata args). Qed.

Lemma frame_files_images args n image b led history t :
  images_saved (frame_files args n image b led history t)
  = [SaveJpeg (path_join (output args) (generate_filename args n)) image].
Proof. unfold frame_files. now destruct (save_metadata args). Qed.

(** What a resolved cycle leaves behind: the files of its frame, or
    nothing; the counter follows. *)
Lemma cycle_ok_summary args env s slept o s' evs :
  cycle_ok args env s slept o s' evs ->
  frame_number s' = frame_number s + 1 /\
  exists ns,
    (ns = [] \/ ns = [frame_number s]) /\
    paths_written evs = flat_map (frame_paths args) ns /\
    List.length (images_saved evs) = List.length ns /\
    captured_count s' = captured_count s + Z.of_nat (List.length ns).
Proof.
  intros (Hn & _ & _ & H). split; [exact Hn |]. destruct o.
  - destruct H as (image & t & _ & _ & _ & _ & Hc & W).
    exists [frame_number s]. split; [auto |].
    rewrite paths_written_writes, images_saved_writes, W.
    rewrite frame_files_paths, frame_files_images. cbn.
    rewrite app_nil_r. repeat split. lia.
  - destruct H as (_ & _ & Hc & W & _).
    exists []. split; [auto |].
    rewrite paths_written_writes, images_saved_writes, W. cbn.
    repeat split. lia.
Qed.

Lemma cycle_cut_summary s s' evs :
  cycle_cut s s' evs ->
  self_of s' = self_of s /\ writes evs = [].
Proof.
  intros (Hs & progress & n & e & -> & T). split; [exact Hs |].
  pose proof (traffic_no_writes _ T) as W. trace.
Qed.

(** What a chain of cycles leaves behind: the files of the frames that were
    completed, whose numbers go up. *)
Lemma cycles_summary args env s s' evs :
  cycles args env s s' evs ->
  frame_number s <= frame_number s' /\
  exists ns,
    paths_written evs = flat_map (frame_paths args) ns /\
    List.length (images_saved evs) = List.length ns /\
    captured_count s' = captured_count s + Z.of_nat (List.length ns) /\
    StronglySorted Z.lt ns /\
    Forall (fun n => frame_number s <= n < frame_number s') ns.
Proof.
  induction 1 as [s | s o s1 e1 s' e2 Hcycle _ (Hle & ns2 & P2 & I2 & C2 & S2 & B2)
                  | s s' evs Hcut | s o s' evs Hcycle].
  - split; [lia |]. exists []. cbn. repeat split; auto; try lia; constructor.
  - destruct (cycle_ok_summary _ _ _ _ _ _ _ Hcycle)
      as (Hn & ns1 & Hns1 & P1 & I1 & C1).
    split; [lia |]. exists (ns1 ++ ns2).
    rewrite paths_written_app, images_saved_app, flat_map_app, !length_app.
    rewrite P1, P2, I1, I2. split; [reflexivity |]. split; [reflexivity |].
    split; [lia |].
    assert (B2' : Forall (fun n => frame_number s < n < frame_number s') ns2).
    { eapply Forall_impl; [| exact B2]. cbn. intros n Hb. lia. }
    destruct Hns1 as [-> | ->]; cbn [app].
    + split; [exact S2 |].
      eapply Forall_impl; [| exact B2']. cbn. intros n Hb. lia.
    + split.
      * constructor; [exact S2 |].
        eapply Forall_impl; [| exact B2']. cbn. intros n Hb. lia.
      * constructor; [lia |].
        eapply Forall_impl; [| exact B2']. cbn. intros n Hb. lia.
  - destruct (cycle_cut_summary _ _ _ Hcut) as (Hs & W).
    destruct (self_of_fields _ _ Hs) as (_ & _ & Hn & Hc).
    split; [lia |]. exists [].
    rewrite paths_written_writes, images_saved_writes, W. cbn.
    repeat split; auto; try lia; constructor.
  - destruct (cycle_ok_summary _ _ _ _ _ _ _ Hcycle)
      as (Hn & ns1 & Hns1 & P1 & I1 & C1).
    split; [lia |]. exists ns1. repeat split; auto.
    + destruct Hns1 as [-> | ->]; repeat constructor.
    + destruct Hns1 as [-> | ->]; repeat constructor; lia.
Qed.

Lemma path_join_inj dir a b : path_join dir a = path_join dir b -> a = b.
Proof.
  unfold path_join. intros H.
  now apply string_app_inv_head, string_app_inv_head in H.
Qed.

Lemma frame_paths_In args n p :
  In p (frame_paths args n) ->
  p = path_join (output args) (generate_filename args n) \/
  p = path_join (output args) (metadata_filename args n).
Proof.
  unfold frame_paths. destruct (save_metadata args); cbn; intuition auto.
Qed.

(** A path belongs to the files of one frame only. *)
Lemma frame_paths_one_frame args n m p :
  In p (frame_paths args n) -> In p (frame_paths args m) -> n = m.
Proof.
  intros Hn Hm.
  apply frame_paths_In in Hn. apply frame_paths_In in Hm.
  destruct Hn as [-> | ->], Hm as [Hm | Hm]; apply path_join_inj in Hm.
  - now apply generate_filename_inj in Hm.
  - now apply image_name_is_no_record_name in Hm.
  - symmetry in Hm. now apply image_name_is_no_record_name in Hm.
  - now apply metadata_filename_inj in Hm.
Qed.

Lemma frame_paths_NoDup args n : NoDup (frame_paths args n).
Proof.
  unfold frame_paths. destruct (save_metadata args).
  - constructor; [| constructor; [intros [] | constructor]].
    intros [H | []]. symmetry in H. apply path_join_inj in H.
    now apply image_name_is_no_record_name in H.
  - constructor; [intros [] | constructor].
Qed.

Lemma increasing_frames_NoDup args ns :
  StronglySorted Z.lt ns -> NoDup (flat_map (frame_paths args) ns).
Proof.
  induction 1 as [| n ns _ IH Hlt]; [constructor |].
  cbn [flat_map]. apply NoDup_app; [apply frame_paths_NoDup | exact IH |].
  intros p Hp Hin. apply in_flat_map in Hin. destruct Hin as (m & Hm & Hpm).
  rewrite Forall_forall in Hlt. specialize (Hlt m Hm).
  pose proof (frame_paths_one_frame _ _ _ _ Hp Hpm). lia.
Qed.

Lemma increasing_length (ns : list Z) (a b : Z) :
  StronglySorted Z.lt ns -> Forall (fun n => a <= n < b) ns ->
  Z.of_nat (List.length ns) <= Z.max 0 (b - a).
Proof.
  intros Hs. revert a. induction Hs as [| n ns _ IH Hlt]; intros a Hb.
  - cbn. lia.
  - inversion Hb as [| ? ? Hn Hb']; subst.
    assert (Hb2 : Forall (fun m => n + 1 <= m < b) ns).
    { rewrite Forall_forall in *. intros m Hm.
      specialize (Hlt m Hm). specialize (Hb' m Hm). cbn in *. lia. }
    specialize (IH (n + 1) Hb2). cbn [List.length]. lia.
Qed.

(** ** Files written by a run *)



(** ** The count a run reports *)

Lemma reported_count_last evs lvl count n :
  reported_count (evs ++ [Log lvl (MsgComplete count n)]) = Some count.
Proof. unfold reported_count. now rewrite last_last. Qed.



(** ** Limits kept from call to call *)

Lemma keeps_ret {A} (a : A) (V : A -> Prop) : V a -> keeps (ret a) V.
Proof. intros H s Hs. cbn. auto. Qed.

Lemma keeps_bind {A B} (m : M A) (f : A -> M B) (V : A -> Prop) (W : B -> Prop) :
  keeps m V -> (forall a, V a -> keeps (f a) W) -> keeps (bind m f) W.
Proof.
  intros Hm Hf s Hs. specialize (Hm s Hs). unfold bind.
  destruct (m s) as [a s1 e1 | x s1 e1 |]; auto.
  destruct Hm as (H1 & E1 & Va). specialize (Hf a Va s1 H1).
  destruct (f a s1) as [b s2 e2 | x s2 e2 |]; auto.
  - destruct Hf as (H2 & E2 & Wb). rewrite forallb_app, E1, E2. auto.
  - destruct Hf as (H2 & E2). rewrite forallb_app, E1, E2. auto.
Qed.

Lemma keeps_weaken {A} (m : M A) (V W : A -> Prop) :
  keeps m V -> (forall a, V a -> W a) -> keeps m W.
Proof.
  intros Hm HV s Hs. specialize (Hm s Hs).
  destruct (m s); auto. destruct Hm as (? & ? & ?). auto.
Qed.

Lemma keeps_gets {A} (f : State -> A) (V : A -> Prop) :
  (forall s, within_limits s -> V (f s)) -> keeps (gets f) V.
Proof. intros H s Hs. cbn. auto. Qed.

Lemma keeps_modify (f : State -> State) :
  (forall s, within_limits s -> within_limits (f s)) -> keeps (modify f) any.
Proof. intros H s Hs. cbn. unfold any. auto. Qed.

Lemma keeps_emit (e : Event) : led_safe e = true -> keeps (emit e) any.
Proof. intros H s Hs. cbn. rewrite H. unfold any. auto. Qed.

Lemma keeps_log lvl msg : keeps (log lvl msg) any.
Proof. now apply keeps_emit. Qed.

Lemma keeps_when (c : bool) (body : M unit) :
  keeps body any -> keeps (when c body) any.
Proof. destruct c; [auto | intros _; now apply keeps_ret]. Qed.

Lemma keeps_for_each {A} (xs : list A) (body : A -> M unit) :
  (forall x, In x xs -> keeps (body x) any) -> keeps (for_each xs body) any.
Proof.
  induction xs as [| x xs IH]; intros H; cbn [for_each].
  - now apply keeps_ret.
  - eapply keeps_bind; [apply H; now left |].
    intros _ _. apply IH. intros y Hy. apply H. now right.
Qed.

Lemma keeps_try (body handler : M unit) :
  keeps body any -> keeps handler any ->
  keeps (try_except_KeyboardInterrupt body handler) any.
Proof.
  intros Hb Hh s Hs. specialize (Hb s Hs). unfold try_except_KeyboardInterrupt.
  destruct (body s) as [a s1 e1 | [] s1 e1 |]; auto.
  destruct Hb as (H1 & E1). specialize (Hh s1 H1).
  destruct (handler s1) as [b s2 e2 | x s2 e2 |]; auto.
  - destruct Hh as (H2 & E2 & _). rewrite forallb_app, E1, E2. unfold any. auto.
  - destruct Hh as (H2 & E2). rewrite forallb_app, E1, E2. auto.
Qed.

(** The world moving on changes no field. *)
Lemma within_limits_self s s' :
  self_of s' = self_of s -> within_limits s -> within_limits s'.
Proof.
  intros H (Hl & Hh). destruct (self_of_fields _ _ H) as (E1 & E2 & _).
  unfold within_limits. now rewrite E1, E2.
Qed.

Lemma level_ok_range v : level_ok v = true <-> 0 <= v <= 255.
Proof. unfold level_ok. rewrite andb_true_iff, !Z.leb_le. reflexivity. Qed.

Section KeepsMethods.

Variable args : Args.
Variable env : Env.

Lemma keeps_sleep d : keeps (sleep env d) any.
Proof.
  intros s Hs. unfold sleep.
  destruct (negb (Qle_bool 0 d)); [auto |].
  destruct (interrupted env (n_sleep s)); [auto |].
  split; [now apply (within_limits_self s) | split; [reflexivity | exact I]].
Qed.

(** A setting other than the LED level, or an LED level in range. *)
Lemma keeps_set_control var val :
  led_safe (GetControl var val) = true -> keeps (set_control env var val) any.
Proof.
  intros H s Hs.
  destruct (set_control_run env var val s) as (ok & lvl & msg & E & _).
  rewrite E. cbn [forallb led_safe] in *. rewrite H.
  split; [now apply (within_limits_self s) | split; [reflexivity | exact I]].
Qed.

Lemma keeps_current_led : keeps (gets current_led) (fun led => level_ok led = true).
Proof. apply keeps_gets. now intros s (H & _). Qed.

Lemma settings_not_the_led :
  Forall (fun x => String.eqb (fst x) "led_intensity" = false) (settings args).
Proof. unfold settings. repeat constructor. Qed.

Lemma keeps_configure_camera : keeps (configure_camera args env) any.
Proof.
  unfold configure_camera.
  eapply keeps_bind; [apply keeps_log |]. intros _ _.
  eapply keeps_bind.
  { apply keeps_for_each. intros [var val] Hin.
    pose proof settings_not_the_led as Hs. rewrite Forall_forall in Hs.
    specialize (Hs _ Hin). cbn [fst] in Hs.
    eapply keeps_bind; [apply keeps_set_control; cbn; now rewrite Hs |].
    intros _ _. apply keeps_sleep. }
  intros _ _.
  eapply keeps_bind; [apply keeps_current_led |]. intros led Hled.
  eapply keeps_bind; [now apply keeps_set_control |]. intros _ _.
  apply keeps_log.
Qed.

Lemma keeps_capture_image : keeps (capture_image env) any.
Proof.
  intros s Hs. rewrite capture_image_run.
  split; [now apply (within_limits_self s) | split; [reflexivity | exact I]].
Qed.

(** The retry loop commands the LED at the stored level or at 0, and the
    level it returns is the stored one. *)
Lemma keeps_capture_attempts attempts :
  keeps (capture_attempts args env attempts)
        (fun r => level_ok (snd r) = true).
Proof.
  induction attempts as [| attempt rest IH]; cbn [capture_attempts].
  - eapply keeps_bind; [apply keeps_current_led |]. intros led Hled.
    now apply keeps_ret.
  - eapply keeps_bind; [apply keeps_current_led |]. intros led Hled.
    eapply keeps_bind; [now apply keeps_set_control |]. intros _ _.
    eapply keeps_bind; [apply keeps_sleep |]. intros _ _.
    eapply keeps_bind; [apply keeps_capture_image |]. intros r _.
    eapply keeps_bind.
    { apply keeps_when. eapply keeps_bind; [now apply keeps_set_control |].
      intros _ _. now apply keeps_ret. }
    intros _ _.
    destruct (fst r) as [image |].
    + eapply keeps_bind; [apply (keeps_gets brightness_history any); easy |].
      intros history _.
      destruct (negb (is_consistent args history (calculate_brightness image))).
      * eapply keeps_bind; [apply keeps_log |]. intros _ _.
        eapply keeps_bind; [apply keeps_sleep |]. intros _ _. exact IH.
      * eapply keeps_bind; [apply keeps_current_led |]. intros led' Hled'.
        now apply keeps_ret.
    + eapply keeps_bind; [apply keeps_log |]. intros _ _.
      eapply keeps_bind; [apply keeps_sleep |]. intros _ _. exact IH.
Qed.

Lemma keeps_save_image image b led :
  level_ok led = true -> keeps (save_image args image b led) any.
Proof.
  intros Hled s Hs. rewrite save_image_run. unfold any.
  split; [exact Hs |]. split; [| exact I].
  destruct (save_metadata args); cbn; now rewrite ?Hled.
Qed.

Lemma within_limits_set_frame_number n s :
  within_limits s -> within_limits (set_frame_number n s).
Proof. exact (fun H => H). Qed.

Lemma within_limits_set_captured_count n s :
  within_limits s -> within_limits (set_captured_count n s).
Proof. exact (fun H => H). Qed.

Lemma keeps_adjust_led b : keeps (adjust_led args b) any.
Proof.
  unfold adjust_led. cbv zeta. apply keeps_when.
  eapply keeps_bind; [apply keeps_current_led |]. intros led Hled.
  eapply keeps_bind; [apply keeps_log |]. intros _ _.
  apply keeps_modify. intros s (_ & Hh). split; [| exact Hh].
  cbn [current_led set_current_led].
  rewrite py_clamp_spec. apply level_ok_range, clamp_range. lia.
Qed.

Lemma keeps_wait_for_next cycle_start end_frame :
  keeps (wait_for_next args env cycle_start end_frame) any.
Proof.
  unfold wait_for_next, time.
  eapply keeps_bind; [apply (keeps_gets frame_number any); easy |]. intros n _.
  apply keeps_when.
  eapply keeps_bind; [apply (keeps_gets clock any); easy |]. intros now _.
  cbv zeta. apply keeps_when.
  eapply keeps_bind; [apply keeps_log |]. intros _ _. apply keeps_sleep.
Qed.

Lemma keeps_frame_cycle start_frame frames_to_capture end_frame :
  keeps (frame_cycle args env start_frame frames_to_capture end_frame) any.
Proof.
  unfold frame_cycle, time.
  eapply keeps_bind; [apply (keeps_gets clock any); easy |]. intros cycle_start _.
  eapply keeps_bind; [apply (keeps_gets frame_number any); easy |]. intros n _.
  cbv zeta.
  eapply keeps_bind; [apply keeps_log |]. intros _ _.
  eapply keeps_bind; [apply keeps_capture_attempts |].
  intros [[[image |] b] led] Hled; cbn [snd] in Hled.
  - eapply keeps_bind; [now apply keeps_save_image |]. intros filepath _.
    eapply keeps_bind; [apply keeps_log |]. intros _ _.
    eapply keeps_bind.
    { apply keeps_modify. intros s (Hl & Hh). split; [exact Hl |].
      cbn [brightness_history set_brightness_history].
      now apply update_brightness_history_length. }
    intros _ _.
    eapply keeps_bind; [apply keeps_adjust_led |]. intros _ _.
    eapply keeps_bind; [apply keeps_modify; now intros s Hs |]. intros _ _.
    eapply keeps_bind; [apply keeps_modify; now intros s Hs |]. intros _ _.
    eapply keeps_bind; [apply keeps_wait_for_next |]. intros _ _.
    now apply keeps_ret.
  - eapply keeps_bind; [apply keeps_log |]. intros _ _.
    eapply keeps_bind; [apply keeps_modify; now intros s Hs |]. intros _ _.
    eapply keeps_bind; [apply keeps_sleep |]. intros _ _.
    now apply keeps_ret.
Qed.

Lemma keeps_run_loop fuel start_frame frames_to_capture end_frame :
  keeps (run_loop args env fuel start_frame frames_to_capture end_frame) any.
Proof.
  induction fuel as [| fuel IH]; cbn [run_loop].
  - intros s _. exact I.
  - eapply keeps_bind; [apply (keeps_gets frame_number any); easy |]. intros n _.
    destruct (n <? end_frame).
    + eapply keeps_bind; [apply keeps_frame_cycle |]. intros _ _. exact IH.
    + now apply keeps_ret.
Qed.

Lemma keeps_test_connection : keeps (test_connection args env) any.
Proof.
  intros s Hs.
  destruct (test_connection_run args env s) as (lvl & msg & E & _).
  rewrite E.
  split; [now apply (within_limits_self s) | split; [reflexivity | exact I]].
Qed.

Lemma keeps_run : keeps (run args env) any.
Proof.
  unfold run.
  eapply keeps_bind; [apply keeps_test_connection |]. intros ok _.
  destruct (negb ok).
  - eapply keeps_bind; [apply keeps_log |]. intros _ _. now apply keeps_ret.
  - eapply keeps_bind; [apply keeps_configure_camera |]. intros _ _.
    eapply keeps_bind; [apply keeps_sleep |]. intros _ _.
    cbv zeta.
    eapply keeps_bind; [apply keeps_log |]. intros _ _.
    eapply keeps_bind; [apply keeps_log |]. intros _ _.
    eapply keeps_bind; [apply keeps_log |]. intros _ _.
    eapply keeps_bind; [apply keeps_modify; now intros s Hs |]. intros _ _.
    eapply keeps_bind.
    { apply keeps_try; [| apply keeps_log].
      eapply keeps_bind; [apply (keeps_gets _ any); easy |]. intros fuel _.
      apply keeps_run_loop. }
    intros _ _.
    eapply keeps_bind; [apply (keeps_gets frame_number any); easy |]. intros n _.
    eapply keeps_bind; [apply (keeps_gets captured_count any); easy |].
    intros count _.
    eapply keeps_bind; [apply keeps_log |]. intros _ _. now apply keeps_ret.
Qed.

End KeepsMethods.

Lemma led_safe_command evs v :
  forallb led_safe evs = true ->
  In (GetControl "led_intensity" v) evs -> 0 <= v <= 255.
Proof.
  intros H Hin. rewrite forallb_forall in H. specialize (H _ Hin).
  cbn in H. now apply level_ok_range.
Qed.

Lemma led_safe_record evs path metadata :
  forallb led_safe evs = true ->
  In (DumpJson path metadata) evs -> 0 <= meta_led_intensity metadata <= 255.
Proof.
  intros H Hin. rewrite forallb_forall in H. specialize (H _ Hin).
  cbn in H. now apply level_ok_range.
Qed.

(** X8. The LED level stays within 0..255. If the controller starts a run
    with a level in that range (and at most 10 samples in its history),
    then, however the device behaves and however the run ends, every
    [led_intensity] command sent carries a level in 0..255, every metadata
    record written holds one, and the controller ends with a level in
    0..255 and at most 10 samples. *)
Theorem led_level_stays_in_range (args : Args) (env : Env) (s : State) :
  0 <= current_led s <= 255 ->
  (List.length (brightness_history s) <= 10)%nat ->
  forall r, r = run args env s ->
    (forall v, In (GetControl "led_intensity" v) (events_of r) -> 0 <= v <= 255) /\
    (forall path metadata,
        In (DumpJson path metadata) (events_of r) ->
        0 <= meta_led_intensity metadata <= 255) /\
    match r with
    | Ok _ s' _ | Raise _ s' _ =>
        0 <= current_led s' <= 255 /\
        (List.length (brightness_history s') <= 10)%nat
    | OutOfFuel => False
    end.
Proof.
  intros Hled Hhist r ->.
  assert (Hs : within_limits s) by (split; [now apply level_ok_range | exact Hhist]).
  pose proof (keeps_run args env s Hs) as H.
  pose proof (run_post args env s) as Hpost. unfold post in Hpost.
  destruct (run args env s) as [ok s' evs | x s' evs |]; [| | contradiction];
    cbn [events_of].
  - destruct H as ((Hl & Hh) & E & _).
    split; [intros v; now apply led_safe_command |].
    split; [intros path metadata; now apply led_safe_record |].
    split; [now apply level_ok_range | exact Hh].
  - destruct H as ((Hl & Hh) & E).
    split; [intros v; now apply led_safe_command |].
    split; [intros path metadata; now apply led_safe_record |].
    split; [now apply level_ok_range | exact Hh].
Qed.

(** Three frames of a dark scene, from level 250: the level is raised at
    each frame and stops at 255. *)
Lemma led_level_stays_in_range_witness :
  let args := args_with 3 20 250 in
  exists s' evs,
    run args (steady_camera 10) (init args 0) = Ok true s' evs /\
    current_led s' = 255 /\
    (forall v, In (GetControl "led_intensity" v) evs -> 0 <= v <= 255).
Proof.
  cbv zeta.
  assert (E : exists s' evs,
             run (args_with 3 20 250) (steady_camera 10)
                 (init (args_with 3 20 250) 0) = Ok true s' evs /\
             current_led s' = 255).
  { vm_compute. do 2 eexists. split; reflexivity. }
  destruct E as (s' & evs & E & L).
  exists s', evs. split; [exact E |]. split; [exact L |].
  destruct (led_level_stays_in_range
              (args_with 3 20 250) (steady_camera 10)
              (init (args_with 3 20 250) 0)) with (r := Ok true s' evs)
    as (H & _).
  - cbn. lia.
  - cbn. lia.
  - now rewrite E.
  - exact H.
Defined.

(** ** What the retry loop does to the device *)

Lemma actions_app e1 e2 : actions (e1 ++ e2) = actions e1 ++ actions e2.
Proof. apply flat_map_app. Qed.

Lemma post_set_control_exact env var val s
      (Qok : bool -> State -> list Event -> Prop) Qex :
  (forall ok lvl msg,
      Qok ok (after_control (control_latency env (n_control s)) s)
          [GetControl var val; Log lvl msg]) ->
  post (set_control env var val) s Qok Qex.
Proof.
  intros H. destruct (set_control_run env var val s) as (ok & lvl & msg & E & _).
  eapply post_run; [exact E | apply H].
Qed.

(** The step that turns the LED off, unless it is to stay on. *)
Lemma post_led_off args env s (Qok : unit -> State -> list Event -> Prop) Qex :
  (forall s' evs,
      current_led s' = current_led s ->
      brightness_history s' = brightness_history s ->
      actions evs = (if led_always_on args then [] else [LedTo 0]) ->
      Qok tt s' evs) ->
  post (when (negb (led_always_on args))
             (set_control env "led_intensity" 0 ;; ret tt)) s Qok Qex.
Proof.
  intros H. destruct (led_always_on args); cbn [negb when].
  - apply post_ret. now apply H.
  - apply post_bind, post_set_control_exact. intros ok lvl msg.
    apply post_ret. now apply H.
Qed.

(** One more attempt in front of [k] others. *)
Lemma attempts_actions_cons args led off rest k :
  off = (if led_always_on args then [] else [LedTo 0]) ->
  rest = List.concat (repeat (attempt_actions args led) k) ->
  LedTo led :: Shoot :: off ++ rest
  = List.concat (repeat (attempt_actions args led) (S k)).
Proof.
  intros -> ->. cbn [repeat List.concat]. unfold attempt_actions at 2.
  now destruct (led_always_on args).
Qed.

Lemma interrupted_actions_cons args led n off acts :
  off = (if led_always_on args then [] else [LedTo 0]) ->
  interrupted_actions args led n acts ->
  interrupted_actions args led (S n) (LedTo led :: Shoot :: off ++ acts).
Proof.
  intros Hoff (k & Hk & H). exists (S k). split; [lia |].
  destruct H as [-> | ->]; [left | right].
  - rewrite <- (attempts_actions_cons args led off _ k Hoff eq_refl).
    cbn [app]. now rewrite app_assoc.
  - now apply attempts_actions_cons.
Qed.

Lemma capture_attempts_actions args env attempts s :
  post (capture_attempts args env attempts) s
       (fun r s' evs =>
          exists k,
            (k <= List.length attempts)%nat /\
            actions evs
            = List.concat (repeat (attempt_actions args (current_led s)) k) /\
            (fst (fst r) = None -> k = List.length attempts) /\
            (fst (fst r) <> None -> (1 <= k)%nat))
       (fun x _ evs =>
          x = KeyboardInterrupt /\
          interrupted_actions args (current_led s) (List.length attempts)
                              (actions evs)).
Proof.
  revert s. induction attempts as [| attempt rest IH]; intros s;
    cbn [capture_attempts List.length].
  - apply post_bind, post_gets, post_ret. exists 0%nat.
    cbn. repeat split; auto. congruence.
  - apply post_bind, post_gets.
    apply post_bind, post_set_control_exact. intros ok1 lvl1 msg1.
    apply post_bind, post_sleep.
    { intros H. exfalso. apply H. discriminate. }
    { intros _ _. split; [reflexivity |]. exists 0%nat. split; [lia |].
      left. reflexivity. }
    intros _ _.
    apply post_bind, post_capture_image.
    apply post_bind, post_led_off. intros s4 off Hled4 Hhist4 Hoff.
    cbn [current_led brightness_history after_capture after_sleep after_control]
      in Hled4, Hhist4.
    assert (Hretry :
              forall s5 (r : option Image * Q * Z) evs,
                current_led s5 = current_led s ->
                (exists k,
                    (k <= List.length rest)%nat /\
                    actions evs
                    = List.concat (repeat (attempt_actions args (current_led s5)) k) /\
                    (fst (fst r) = None -> k = List.length rest) /\
                    (fst (fst r) <> None -> (1 <= k)%nat)) ->
                exists k,
                  (k <= S (List.length rest))%nat /\
                  LedTo (current_led s) :: Shoot :: actions off ++ actions evs
                  = List.concat (repeat (attempt_actions args (current_led s)) k) /\
                  (fst (fst r) = None -> k = S (List.length rest)) /\
                  (fst (fst r) <> None -> (1 <= k)%nat)).
    { intros s5 r evs Hled5 (k & Hk & Ha & Hnone & Hsome). exists (S k).
      rewrite Hled5 in Ha.
      split; [lia |]. split; [| split; [intros H; f_equal; auto | intros; lia]].
      now apply attempts_actions_cons. }
    assert (Hpause :
              forall (e1 e2 e3 tail : list Event),
                actions e1 = [LedTo (current_led s)] ->
                actions e2 = [] -> actions e3 = [Shoot] -> actions tail = [] ->
                interrupted_actions args (current_led s) (S (List.length rest))
                                    (actions (e1 ++ e2 ++ e3 ++ off ++ tail))).
    { intros e1 e2 e3 tail H1 H2 H3 Ht. exists 0%nat. split; [lia |]. right.
      rewrite !actions_app, H1, H2, H3, Ht, Hoff, app_nil_r. cbn [app].
      rewrite <- (app_nil_r (if led_always_on args then [] else [LedTo 0])).
      now apply (attempts_actions_cons args _ _ _ 0). }
    assert (Hcut :
              forall s5 x evs,
                current_led s5 = current_led s ->
                x = KeyboardInterrupt /\
                interrupted_actions args (current_led s5) (List.length rest)
                                    (actions evs) ->
                x = KeyboardInterrupt /\
                interrupted_actions args (current_led s) (S (List.length rest))
                  (LedTo (current_led s) :: Shoot :: actions off ++ actions evs)).
    { intros s5 x evs Hled5 (Hx & H). split; [exact Hx |].
      rewrite Hled5 in H. now apply interrupted_actions_cons. }
    destruct (fst (decode (capture_reply env (n_capture _)))) as [image |].
    + apply post_bind, post_gets.
      destruct (negb (is_consistent args (brightness_history s4)
                                    (calculate_brightness image))).
      * apply post_bind, post_log.
        apply post_bind, post_sleep.
        { intros H. exfalso. apply H. discriminate. }
        { intros _ _. split; [reflexivity |].
          rewrite app_nil_r. cbn [app].
          now apply (Hpause [_; _] [_] [_] [_]). }
        intros _ _.
        eapply post_conseq; [apply IH | |].
        -- intros r s' evs H.
           apply (Hretry _ r evs Hled4) in H. destruct H as (k & Hk & Ha & H).
           exists k. split; [exact Hk |]. split; [| exact H].
           rewrite <- Ha, !actions_app. reflexivity.
        -- intros x s' evs H. apply (Hcut _ x evs Hled4) in H.
           destruct H as (Hx & H). split; [exact Hx |].
           now rewrite !actions_app.
      * apply post_bind, post_gets, post_ret. exists 1%nat.
        split; [lia |]. split; [| split; [discriminate | auto]].
        rewrite !actions_app, Hoff.
        cbn [actions flat_map action_of app String.eqb Ascii.eqb Bool.eqb].
        rewrite app_nil_r.
        rewrite <- (app_nil_r (if led_always_on args then [] else [LedTo 0])).
        now apply (attempts_actions_cons args _ _ _ 0).
    + apply post_bind, post_log.
      apply post_bind, post_sleep.
      { intros H. exfalso. apply H. discriminate. }
      { intros _ _. split; [reflexivity |].
        rewrite app_nil_r. cbn [app].
        now apply (Hpause [_; _] [_] [_] [_]). }
      intros _ _.
      eapply post_conseq; [apply IH | |].
      * intros r s' evs H.
        apply (Hretry _ r evs Hled4) in H. destruct H as (k & Hk & Ha & H).
        exists k. split; [exact Hk |]. split; [| exact H].
        rewrite <- Ha, !actions_app. reflexivity.
      * intros x s' evs H. apply (Hcut _ x evs Hled4) in H.
        destruct H as (Hx & H). split; [exact Hx |].
        now rewrite !actions_app.
Qed.

(** X9. What the retry loop does to the device, when it returns: a number
    [k] of attempts, at most [max_retries], each one commanding the LED to
    the stored level, then capturing, then commanding the LED to 0 (unless
    the LED is to stay on, and then no attempt ever turns it off), and
    nothing else; the level is the same at every attempt. All
    [max_retries] attempts were made when no image is returned, at least
    one when an image is. With [max_retries] at 0 or below the device is
    not contacted and no image is returned. *)
Theorem attempts_flash_the_led (args : Args) (env : Env) (s : State)
        (r : option Image * Q * Z) (s' : State) (evs : list Event) :
  capture_with_adaptive_led args env s = Ok r s' evs ->
  (exists k,
      (k <= Z.to_nat (max_retries args))%nat /\
      actions evs
      = List.concat (repeat (attempt_actions args (current_led s)) k) /\
      (fst (fst r) = None -> k = Z.to_nat (max_retries args)) /\
      (fst (fst r) <> None -> (1 <= k)%nat)) /\
  (max_retries args <= 0 -> fst (fst r) = None /\ actions evs = []).
Proof.
  intros E. unfold capture_with_adaptive_led in E.
  pose proof (post_ok _ _ _ _ _ _ _
                (capture_attempts_actions args env
                   (Py.range (max_retries args)) s) E) as H.
  cbn beta in H.
  assert (Hlen : List.length (Py.range (max_retries args))
                 = Z.to_nat (max_retries args)).
  { unfold Py.range. now rewrite length_map, length_seq. }
  rewrite Hlen in H. split; [exact H |].
  intros Hmax. destruct H as (k & Hk & Ha & _ & Hsome).
  assert (k = 0)%nat as -> by lia. split; [| exact Ha].
  destruct (fst (fst r)); [| reflexivity].
  assert (1 <= 0)%nat by (apply Hsome; discriminate). lia.
Qed.

(** A device that answers every capture with 503: three attempts, the LED
    on at 50 and off again each time. *)
Lemma attempts_flash_the_led_witness :
  exists r s' evs,
    capture_with_adaptive_led default_args stubborn_device (init default_args 0)
    = Ok r s' evs /\
    fst (fst r) = None /\
    actions evs = [LedTo 50; Shoot; LedTo 0; LedTo 50; Shoot; LedTo 0;
                   LedTo 50; Shoot; LedTo 0].
Proof.
  assert (E : exists r s' evs,
             capture_with_adaptive_led default_args stubborn_device
                                       (init default_args 0) = Ok r s' evs /\
             fst (fst r) = None).
  { vm_compute. do 3 eexists. split; reflexivity. }
  destruct E as (r & s' & evs & E & Hr).
  exists r, s', evs. split; [exact E |]. split; [exact Hr |].
  destruct (attempts_flash_the_led _ _ _ _ _ _ E) as ((k & _ & Ha & Hnone & _) & _).
  rewrite Ha, (Hnone Hr). reflexivity.
Defined.



(** ** The entry point *)

Lemma setup_logging_run args s :
  exists evs,
    setup_logging args s = Ok tt s evs /\
    probes evs = [] /\ cycle_numbers evs = [] /\ actions evs = [] /\
    writes evs = [].
Proof.
  unfold setup_logging.
  destruct (negb (String.eqb (output args) EmptyString)); cbn;
    eexists; repeat split.
Qed.

(** Left alone, the set-up returns. *)
Lemma configure_camera_returns args env s :
  quiet env ->
  exists s' evs,
    configure_camera args env s = Ok tt s' evs /\
    self_of s' = self_of s /\ forallb housekeeping evs = true.
Proof.
  intros Hq.
  destruct (post_returns (configure_camera args env) s
              (fun _ s' evs => self_of s' = self_of s /\
                               forallb housekeeping evs = true))
    as ([] & s' & evs & E & H).
  - eapply post_conseq; [apply configure_camera_post | auto |].
    intros x s' evs (_ & Hnq & _). contradiction.
  - now exists s', evs.
Qed.



(** ** The frames the assembler finds *)

Section AssemblerFacts.

Variable Dict : Type.
Variable load_metadata : string -> Dict.
Variable timestamp_of : Dict -> string.

Lemma insert_by_frame_perm (c : Capture Dict) l :
  Permutation (insert_by_frame Dict c l) (c :: l).
Proof.
  induction l as [| x l IH]; cbn [insert_by_frame]; [reflexivity |].
  destruct (frame c <=? frame x); [reflexivity |].
  rewrite IH. apply perm_swap.
Qed.

Lemma sorted_by_frame_perm (l : list (Capture Dict)) :
  Permutation (sorted_by_frame Dict l) l.
Proof.
  induction l as [| c l IH]; cbn [sorted_by_frame fold_right]; [reflexivity |].
  fold (sorted_by_frame Dict l). rewrite insert_by_frame_perm. now constructor.
Qed.

Lemma insert_by_frame_sorted (c : Capture Dict) l :
  StronglySorted (fun a b => frame a <= frame b) l ->
  StronglySorted (fun a b => frame a <= frame b) (insert_by_frame Dict c l).
Proof.
  induction 1 as [| x l Hs IH Hx]; cbn [insert_by_frame].
  - repeat constructor.
  - destruct (Z.leb_spec (frame c) (frame x)) as [Hle | Hgt].
    + constructor; [now constructor |].
      constructor; [exact Hle |].
      eapply Forall_impl; [| exact Hx]. cbn. intros y Hy. lia.
    + constructor; [exact IH |].
      eapply Permutation_Forall;
        [symmetry; apply insert_by_frame_perm |].
      constructor; [lia | exact Hx].
Qed.

Lemma sorted_by_frame_sorted (l : list (Capture Dict)) :
  StronglySorted (fun a b => frame a <= frame b) (sorted_by_frame Dict l).
Proof.
  induction l as [| c l IH]; cbn [sorted_by_frame fold_right]; [constructor |].
  now apply insert_by_frame_sorted.
Qed.

Lemma frames_of_captures capture_dir basename globbed :
  map frame (flat_map (capture_of Dict load_metadata timestamp_of
                                  capture_dir basename) globbed)
  = frames_named basename globbed.
Proof.
  unfold frames_named. induction globbed as [| name l IH]; [reflexivity |].
  cbn [flat_map]. rewrite map_app, IH. f_equal.
  unfold capture_of, frame_of_name.
  now destruct (pattern_match basename name).
Qed.

Lemma find_images_frames capture_dir globbed basename :
  Permutation
    (map frame (find_images Dict load_metadata timestamp_of
                            capture_dir globbed basename))
    (frames_named basename globbed).
Proof.
  unfold find_images. rewrite sorted_by_frame_perm.
  now rewrite frames_of_captures.
Qed.

Lemma map_frame_sorted (l : list (Capture Dict)) :
  StronglySorted (fun a b => frame a <= frame b) l ->
  StronglySorted Z.le (map frame l).
Proof.
  induction 1 as [| x l _ IH Hx]; cbn [map]; constructor; [exact IH |].
  rewrite Forall_map. exact Hx.
Qed.

Lemma last_map_frame (l : list (Capture Dict)) (d : Capture Dict) :
  frame (last l d) = last (map frame l) (frame d).
Proof.
  induction l as [| x l IH]; [reflexivity |].
  destruct l as [| y l]; [reflexivity |]. exact IH.
Qed.

End AssemblerFacts.

Lemma sorted_distinct_increasing (l : list Z) :
  StronglySorted Z.le l -> NoDup l -> StronglySorted Z.lt l.
Proof.
  induction 1 as [| x l _ IH Hx]; intros Hnd; [constructor |].
  inversion Hnd as [| ? ? Hnotin Hnd']; subst.
  constructor; [now apply IH |].
  rewrite Forall_forall in *. intros y Hy. specialize (Hx y Hy).
  assert (x <> y) by (intros ->; contradiction). lia.
Qed.

Lemma increasing_NoDup (l : list Z) : StronglySorted Z.lt l -> NoDup l.
Proof.
  induction 1 as [| x l _ IH Hx]; constructor; [| exact IH].
  intros Hin. rewrite Forall_forall in Hx. specialize (Hx x Hin). lia.
Qed.

Lemma increasing_last_max (l : list Z) (d n : Z) :
  StronglySorted Z.lt l -> In n l -> n <= last l d.
Proof.
  intros Hs. revert n. induction Hs as [| x l _ IH Hx]; intros n Hin; [easy |].
  destruct l as [| y l].
  - destruct Hin as [<- | []]. cbn. lia.
  - change (last (x :: y :: l) d) with (last (y :: l) d).
    destruct Hin as [<- | Hin]; [| now apply IH].
    inversion Hx as [| ? ? Hxy _]; subst.
    specialize (IH y (or_introl eq_refl)). lia.
Qed.

Lemma filter_split_length {A} (f : A -> bool) (l : list A) :
  (List.length (filter f l) + List.length (filter (fun x => negb (f x)) l)
   = List.length l)%nat.
Proof.
  induction l as [| x l IH]; [reflexivity |].
  cbn [filter]. destruct (f x); cbn [negb List.length]; lia.
Qed.

(** Among increasing numbers, those missing between the first and the last
    are as many as the span less the numbers there are. *)
Lemma increasing_missing (first : Z) (rest : list Z) :
  StronglySorted Z.lt (first :: rest) ->
  let fs := first :: rest in
  let last_frame := last fs first in
  Z.of_nat (List.length (missing_between fs first last_frame))
  = last_frame - first + 1 - Z.of_nat (List.length fs).
Proof.
  intros Hs fs last_frame.
  assert (Hmax : forall n, In n fs -> first <= n <= last_frame).
  { intros n Hin. split; [| now apply increasing_last_max].
    apply StronglySorted_inv in Hs. destruct Hs as (_ & Hlt).
    destruct Hin as [<- | Hin]; [lia |].
    rewrite Forall_forall in Hlt. specialize (Hlt n Hin). lia. }
  pose proof (Hmax first (or_introl eq_refl)) as Hfirst.
  set (range := count_from first (Z.to_nat (last_frame - first + 1))).
  assert (Hperm : Permutation (filter (fun n => existsb (Z.eqb n) fs) range) fs).
  { apply NoDup_Permutation.
    - apply NoDup_filter, count_from_NoDup.
    - now apply increasing_NoDup.
    - intros n. rewrite filter_In, existsb_exists. split.
      + intros (_ & y & Hy & E). apply Z.eqb_eq in E. now subst.
      + intros Hin. split.
        * apply count_from_In. specialize (Hmax n Hin). lia.
        * exists n. split; [exact Hin | apply Z.eqb_refl]. }
  apply Permutation_length in Hperm.
  pose proof (filter_split_length (fun n => existsb (Z.eqb n) fs) range) as Hsplit.
  assert (Hrange : List.length range = Z.to_nat (last_frame - first + 1)).
  { unfold range, count_from. now rewrite length_map, length_seq. }
  unfold missing_between. fold range. lia.
Qed.

(** The names a glob for [*.jpg] yields end in [.jpg]. *)
Lemma jpg_is_not_jpg_newline (a b : string) :
  (a ++ ".jpg")%string <> (b ++ ".jpg" ++ newline)%string.
Proof.
  revert b. induction a as [| c a IH]; intros [| d b] H; cbn in H.
  - discriminate H.
  - apply (f_equal String.length) in H. cbn in H.
    rewrite string_append_length in H. cbn in H. lia.
  - destruct a as [| c' a]; [discriminate H |].
    apply (f_equal String.length) in H. cbn in H.
    rewrite string_append_length in H. cbn in H. lia.
  - injection H as _ H. now apply IH in H.
Qed.

Lemma strip_prefix_inv (p s rest : string) :
  strip_prefix p s = Some rest -> s = (p ++ rest)%string.
Proof.
  revert s. induction p as [| c p IH]; intros s H; cbn in H.
  - now injection H as ->.
  - destruct s as [| d s]; [discriminate H |].
    destruct (Ascii.eqb_spec c d) as [-> | _]; [| discriminate H].
    cbn. f_equal. now apply IH.
Qed.

Lemma take_digits_inv k (s digits tail : string) :
  take_digits k s = Some (digits, tail) ->
  s = (digits ++ tail)%string /\ all_digits digits = true /\
  String.length digits = k.
Proof.
  revert s digits tail. induction k as [| k IH]; intros s digits tail H; cbn in H.
  - injection H as <- <-. auto.
  - destruct s as [| c s]; [discriminate H |].
    destruct (is_digit c) eqn:Hc; [| discriminate H].
    destruct (take_digits k s) as [[d t] |] eqn:E; [| discriminate H].
    injection H as <- <-. destruct (IH _ _ _ E) as (-> & Ha & Hl).
    cbn. rewrite Hc, Ha, Hl. auto.
Qed.

Lemma pattern_match_inv (basename name digits : string) :
  pattern_match basename name = Some digits ->
  (name = (basename ++ "_" ++ digits ++ ".jpg")%string \/
   name = (basename ++ "_" ++ digits ++ ".jpg" ++ newline)%string) /\
  all_digits digits = true /\ String.length digits = 5%nat.
Proof.
  unfold pattern_match. intros H.
  destruct (strip_prefix (basename ++ "_") name) as [rest |] eqn:Ep;
    [| discriminate H].
  destruct (take_digits 5 rest) as [[d tail] |] eqn:Et; [| discriminate H].
  apply strip_prefix_inv in Ep. destruct (take_digits_inv _ _ _ _ Et) as (-> & Ha & Hl).
  rewrite string_append_assoc in Ep.
  destruct (String.eqb_spec tail ".jpg") as [-> | _]; cbn [orb] in H.
  - injection H as <-. auto.
  - destruct (String.eqb_spec tail (".jpg" ++ newline)) as [-> | _];
      [| discriminate H].
    injection H as <-. auto.
Qed.

Lemma is_digit_value c :
  is_digit c = true -> 0 <= Z.of_nat (nat_of_ascii c) - 48 <= 9.
Proof.
  unfold is_digit. cbv zeta. intros H. apply andb_prop in H.
  destruct H as [Hlo Hhi]. apply Nat.leb_le in Hlo. apply Nat.leb_le in Hhi. lia.
Qed.

Lemma int_of_digits_from_shift (s : string) (acc : Z) :
  int_of_digits_from acc s
  = acc * 10 ^ Z.of_nat (String.length s) + int_of_digits s.
Proof.
  unfold int_of_digits. revert acc.
  induction s as [| c s IH]; intros acc; cbn [int_of_digits_from String.length].
  - cbn. lia.
  - rewrite (IH (10 * acc + _)), (IH (10 * 0 + _)).
    rewrite Nat2Z.inj_succ, Z.pow_succ_r by lia. ring.
Qed.

(** Two texts of as many digits that are worth the same are the same. *)
Lemma int_of_digits_inj (s t : string) :
  all_digits s = true -> all_digits t = true ->
  String.length s = String.length t ->
  int_of_digits s = int_of_digits t -> s = t.
Proof.
  revert t. induction s as [| c s IH]; intros [| d t] Hs Ht Hlen Hv;
    try discriminate Hlen; [reflexivity |].
  cbn in Hs, Ht. apply andb_prop in Hs. apply andb_prop in Ht.
  destruct Hs as [Hc Hs], Ht as [Hd Ht]. injection Hlen as Hlen.
  unfold int_of_digits in Hv. cbn [int_of_digits_from] in Hv.
  rewrite (int_of_digits_from_shift s), (int_of_digits_from_shift t), <- Hlen in Hv.
  pose proof (int_of_digits_from_bound s 0 Hs ltac:(lia)) as Bs.
  pose proof (int_of_digits_from_bound t 0 Ht ltac:(lia)) as Bt.
  fold (int_of_digits s) in Bs. fold (int_of_digits t) in Bt.
  rewrite <- Hlen in Bt.
  pose proof (is_digit_value c Hc) as Vc. pose proof (is_digit_value d Hd) as Vd.
  set (p := 10 ^ Z.of_nat (String.length s)) in *.
  assert (Hcd : Z.of_nat (nat_of_ascii c) = Z.of_nat (nat_of_ascii d)) by nia.
  assert (Hst : int_of_digits s = int_of_digits t) by nia.
  f_equal.
  - apply Nat2Z.inj in Hcd.
    rewrite <- (ascii_nat_embedding c), <- (ascii_nat_embedding d), Hcd.
    reflexivity.
  - now apply IH.
Qed.

(** Two names the glob can yield that carry the same frame number are one
    name. *)
Lemma frame_of_name_inj (basename n1 n2 : string) (f : Z) :
  (exists stem, n1 = (stem ++ ".jpg")%string) ->
  (exists stem, n2 = (stem ++ ".jpg")%string) ->
  frame_of_name basename n1 = Some f ->
  frame_of_name basename n2 = Some f -> n1 = n2.
Proof.
  unfold frame_of_name. intros (st1 & J1) (st2 & J2) H1 H2.
  destruct (pattern_match basename n1) as [d1 |] eqn:E1; [| discriminate H1].
  destruct (pattern_match basename n2) as [d2 |] eqn:E2; [| discriminate H2].
  injection H1 as H1. injection H2 as H2.
  destruct (pattern_match_inv _ _ _ E1) as (N1 & A1 & L1).
  destruct (pattern_match_inv _ _ _ E2) as (N2 & A2 & L2).
  assert (d1 = d2) as ->.
  { apply int_of_digits_inj; auto; congruence. }
  assert (Hjpg : forall name stem d,
             name = (stem ++ ".jpg")%string ->
             name = (basename ++ "_" ++ d ++ ".jpg")%string \/
             name = (basename ++ "_" ++ d ++ ".jpg" ++ newline)%string ->
             name = (basename ++ "_" ++ d ++ ".jpg")%string).
  { intros name stem d J [N | N]; [exact N |]. exfalso.
    rewrite J in N.
    rewrite <- (string_append_assoc basename), <- (string_append_assoc _ d) in N.
    now apply jpg_is_not_jpg_newline in N. }
  rewrite (Hjpg _ _ _ J1 N1), (Hjpg _ _ _ J2 N2). reflexivity.
Qed.

Lemma frames_named_In basename globbed n :
  In n (frames_named basename globbed) <->
  exists name, In name globbed /\ frame_of_name basename name = Some n.
Proof.
  unfold frames_named. rewrite in_flat_map. split.
  - intros (name & Hin & H). exists name. split; [exact Hin |].
    destruct (frame_of_name basename name) as [m |]; [| contradiction].
    destruct H as [-> | []]. reflexivity.
  - intros (name & Hin & H). exists name. split; [exact Hin |].
    rewrite H. now left.
Qed.

Lemma frames_named_NoDup basename globbed :
  NoDup globbed ->
  Forall (fun name => exists stem, name = (stem ++ ".jpg")%string) globbed ->
  NoDup (frames_named basename globbed).
Proof.
  induction 1 as [| name l Hnotin _ IH]; intros Hjpg; [constructor |].
  inversion Hjpg as [| ? ? Hname Hl]; subst.
  change (frames_named basename (name :: l))
    with ((match frame_of_name basename name with
           | Some n => [n]
           | None => []
           end) ++ frames_named basename l).
  destruct (frame_of_name basename name) as [n |] eqn:E; [| now apply IH].
  cbn [app]. constructor; [| now apply IH].
  intros Hin. apply frames_named_In in Hin. destruct Hin as (name' & Hin' & E').
  rewrite Forall_forall in Hl.
  pose proof (frame_of_name_inj _ _ _ _ Hname (Hl _ Hin') E E'). now subst.
Qed.


